(** * beets-artistcountry: the [artistcountry] plugin of beets

    A shallow embedding of [beetsplug/artistcountry.py] and the
    properties of its cache, its country resolver and its two host hooks.

    Conventions of the embedding:
    - Python values that come out of JSON or out of the MusicBrainz client
      are terms of [pyval]; a Python [dict] inside such a value is an
      association list, looked up by first match.
    - The artist cache, a [dict] from identifier to record, is a
      [gmap string pydict].
    - A Python [str] is a [string]; [len] is [String.length], [lower] maps
      the letters [A]..[Z] to [a]..[z].
    - The cache file is modelled in four states: absent, unreadable
      ([IOError] on opening it), not valid JSON text ([JSONDecodeError]),
      or holding a JSON object whose values are JSON objects. Other
      contents (another JSON value at the top or as a record, bytes that
      do not decode) and a write that fails halfway are outside the model;
      what [json.dump] writes is what [json.load] reads.
    - Effects (the plugin's [_cache] attribute, the cache file, the log,
      the remote calls issued, the clock) are threaded through a state and
      exception monad [M]; a raised exception keeps the state reached when
      it was raised, as in Python. *)

From Stdlib Require Import String Ascii List ZArith Bool Lia DecimalString.
From stdpp Require Import base option strings gmap.

Open Scope string_scope.
Open Scope list_scope.
Set Warnings "-register-all".

(** ** Python values *)

Inductive pyval : Type :=
| PNone
| PBool (b : bool)
| PInt (z : Z)
| PStr (s : string)
| PList (l : list pyval)
| PDict (d : list (string * pyval)).

(** A Python [dict] with string keys. *)
Abbreviation pydict := (list (string * pyval)).

(** ** Exceptions *)

Inductive exn_class : Type :=
| KeyError
| IndexError
| TypeError
| AttributeError
| RecursionError
| OSError            (* [IOError] is an alias of [OSError] *)
| JSONDecodeError
| WebServiceError.   (* what the MusicBrainz client raises *)

Record exn : Type := Exn { exn_type : exn_class; exn_str : string }.

Definition exn_class_eqb (a b : exn_class) : bool :=
  match a, b with
  | KeyError, KeyError | IndexError, IndexError | TypeError, TypeError
  | AttributeError, AttributeError | RecursionError, RecursionError
  | OSError, OSError | JSONDecodeError, JSONDecodeError
  | WebServiceError, WebServiceError => true
  | _, _ => false
  end.

(** [except Exception]: every class above derives from [Exception]. *)
Definition Exception (c : exn_class) : bool := true.

(** [except (json.JSONDecodeError, IOError)] *)
Definition JSONDecodeError_or_IOError (c : exn_class) : bool :=
  exn_class_eqb c JSONDecodeError || exn_class_eqb c OSError.

(** [except IOError] *)
Definition IOError (c : exn_class) : bool := exn_class_eqb c OSError.

Inductive outcome (A : Type) : Type :=
| Ret (a : A)
| Raise (e : exn).
Arguments Ret {A} a.
Arguments Raise {A} e.

(** ** Operations of Python on [pyval] *)

(** Truth value of an object, as tested by [if x] and [not x]. *)
Definition truthy (v : pyval) : bool :=
  match v with
  | PNone => false
  | PBool b => b
  | PInt z => negb (z =? 0)%Z
  | PStr s => negb (String.eqb s "")
  | PList l => match l with [] => false | _ => true end
  | PDict d => match d with [] => false | _ => true end
  end.

Fixpoint dict_lookup (d : pydict) (k : string) : option pyval :=
  match d with
  | [] => None
  | (k', v) :: d' => if String.eqb k' k then Some v else dict_lookup d' k
  end.

(** [d.get(k, default)] on a dict. *)
Definition dict_get (d : pydict) (k : string) (default : pyval) : pyval :=
  match dict_lookup d k with
  | Some v => v
  | None => default
  end.

Definition quoted (k : string) : string := "'" +:+ k +:+ "'".

(** [v[k]] for a string key [k]. *)
Definition getitem (v : pyval) (k : string) : outcome pyval :=
  match v with
  | PDict d =>
      match dict_lookup d k with
      | Some x => Ret x
      | None => Raise (Exn KeyError (quoted k))
      end
  | PList _ => Raise (Exn TypeError "list indices must be integers or slices, not str")
  | PStr _ => Raise (Exn TypeError "string indices must be integers, not 'str'")
  | _ => Raise (Exn TypeError "object is not subscriptable")
  end.

(** [v[0]] *)
Definition getitem0 (v : pyval) : outcome pyval :=
  match v with
  | PList (x :: _) => Ret x
  | PList [] => Raise (Exn IndexError "list index out of range")
  | PStr (String c _) => Ret (PStr (String c ""))
  | PStr "" => Raise (Exn IndexError "string index out of range")
  | PDict _ => Raise (Exn KeyError "0")
  | _ => Raise (Exn TypeError "object is not subscriptable")
  end.

(** [v.get(k, default)]: only a dict has the method. *)
Definition py_get (v : pyval) (k : string) (default : pyval) : outcome pyval :=
  match v with
  | PDict d => Ret (dict_get d k default)
  | _ => Raise (Exn AttributeError "object has no attribute 'get'")
  end.

(** [v == s] for a string literal [s]. *)
Definition eq_str (v : pyval) (s : string) : bool :=
  match v with
  | PStr t => String.eqb t s
  | _ => false
  end.

Fixpoint is_prefix (p s : string) : bool :=
  match p, s with
  | EmptyString, _ => true
  | String a p', String b s' => Ascii.eqb a b && is_prefix p' s'
  | String _ _, EmptyString => false
  end.

Fixpoint is_substring (p s : string) : bool :=
  is_prefix p s ||
  match s with
  | EmptyString => false
  | String _ s' => is_substring p s'
  end.

(** [k in v] for a string literal [k]. *)
Definition py_in (k : string) (v : pyval) : outcome bool :=
  match v with
  | PDict d => Ret (match dict_lookup d k with Some _ => true | None => false end)
  | PList l => Ret (existsb (fun x => eq_str x k) l)
  | PStr s => Ret (is_substring k s)
  | _ => Raise (Exn TypeError "argument is not iterable")
  end.

Fixpoint chars (s : string) : list pyval :=
  match s with
  | EmptyString => []
  | String c s' => PStr (String c "") :: chars s'
  end.

(** The elements [for a in v] runs over. *)
Definition py_iter (v : pyval) : outcome (list pyval) :=
  match v with
  | PList l => Ret l
  | PDict d => Ret (map (fun kv => PStr (fst kv)) d)
  | PStr s => Ret (chars s)
  | _ => Raise (Exn TypeError "object is not iterable")
  end.

Definition lower_ascii (c : ascii) : ascii :=
  let n := nat_of_ascii c in
  if (65 <=? n)%nat && (n <=? 90)%nat then ascii_of_nat (n + 32) else c.

Fixpoint lower (s : string) : string :=
  match s with
  | EmptyString => EmptyString
  | String c s' => String (lower_ascii c) (lower s')
  end.

(** [v.lower()]: only a string has the method. *)
Definition py_lower (v : pyval) : outcome pyval :=
  match v with
  | PStr s => Ret (PStr (lower s))
  | _ => Raise (Exn AttributeError "object has no attribute 'lower'")
  end.

(** [repr(s)] of a string: quoted with ['] unless the string has a [']
    and no double quote; backslash, the quote, control characters and the
    characters that are not printable are escaped. *)
Definition double_quote : ascii := ascii_of_nat 34.

Fixpoint contains_char (c : ascii) (s : string) : bool :=
  match s with
  | EmptyString => false
  | String a s' => Ascii.eqb a c || contains_char c s'
  end.

Definition hex_digit (n : nat) : ascii :=
  nth n ["0"; "1"; "2"; "3"; "4"; "5"; "6"; "7"; "8"; "9";
         "a"; "b"; "c"; "d"; "e"; "f"]%char "0"%char.

Definition repr_char (quote c : ascii) : string :=
  let n := nat_of_ascii c in
  if Ascii.eqb c quote || Ascii.eqb c "\" then String "\" (String c "")
  else if (n =? 9)%nat then "\t"
  else if (n =? 10)%nat then "\n"
  else if (n =? 13)%nat then "\r"
  else if (n <? 32)%nat || (n =? 127)%nat
          || ((128 <=? n)%nat && (n <=? 160)%nat) || (n =? 173)%nat
       then String "\" (String "x" (String (hex_digit (n / 16))
                                      (String (hex_digit (n mod 16)) "")))
  else String c "".

Fixpoint repr_chars (quote : ascii) (s : string) : string :=
  match s with
  | EmptyString => ""
  | String c s' => repr_char quote c +:+ repr_chars quote s'
  end.

Definition repr_str (s : string) : string :=
  let quote := if contains_char "'" s && negb (contains_char double_quote s)
               then double_quote else "'"%char in
  String quote (repr_chars quote s +:+ String quote "").

(** [sep.join(l)] *)
Fixpoint join (sep : string) (l : list string) : string :=
  match l with
  | [] => ""
  | [x] => x
  | x :: l' => x +:+ sep +:+ join sep l'
  end.

(** [repr(v)] *)
Fixpoint py_repr (v : pyval) : string :=
  match v with
  | PNone => "None"
  | PBool true => "True"
  | PBool false => "False"
  | PInt z => NilZero.string_of_int (Z.to_int z)
  | PStr s => repr_str s
  | PList l => "[" +:+ join ", " (map py_repr l) +:+ "]"
  | PDict d =>
      "{" +:+ join ", " (map (fun kv => repr_str (fst kv) +:+ ": "
                                        +:+ py_repr (snd kv)) d)
      +:+ "}"
  end.

(** [str(v)] *)
Definition py_str (v : pyval) : string :=
  match v with
  | PStr s => s
  | _ => py_repr v
  end.

(** [s.count('-')] *)
Fixpoint count_char (c : ascii) (s : string) : nat :=
  match s with
  | EmptyString => 0
  | String a s' => (if Ascii.eqb a c then 1 else 0) + count_char c s'
  end.

(** ** The state and exception monad *)

Definition M (S A : Type) : Type := S -> outcome A * S.

Definition ret {S A} (a : A) : M S A := fun s => (Ret a, s).

Definition raise {S A} (e : exn) : M S A := fun s => (Raise e, s).

Definition bind {S A B} (m : M S A) (k : A -> M S B) : M S B :=
  fun s =>
    match m s with
    | (Ret a, s') => k a s'
    | (Raise e, s') => (Raise e, s')
    end.

(** A pure operation that may raise. *)
Definition lift {S A} (o : outcome A) : M S A := fun s => (o, s).

(** [try: body except classes as e: handler e]. The handler starts in the
    state the body had reached. *)
Definition try_except {S A} (body : M S A) (classes : exn_class -> bool)
    (handler : exn -> M S A) : M S A :=
  fun s =>
    match body s with
    | (Ret a, s') => (Ret a, s')
    | (Raise e, s') =>
        if classes (exn_type e) then handler e s' else (Raise e, s')
    end.

Definition modify {S} (f : S -> S) : M S unit := fun s => (Ret tt, f s).

Notation "x <- m ;; k" := (bind m (fun x => k))
  (at level 100, m at next level, right associativity).
Notation "m ;;; k" := (bind m (fun _ => k))
  (at level 100, right associativity).

(** ** The world around the plugin *)

(** The artist cache: identifier to record. *)
Abbreviation cache := (gmap string pydict).

(** What is on disk at [self.cache_file]. *)
Inductive file_state : Type :=
| NoFile                        (* [os.path.exists] is false *)
| FileJSON (c : cache)          (* the JSON text of the mapping [c] *)
| FileCorrupt (msg : string)    (* [json.load] raises [JSONDecodeError] *)
| FileUnreadable (msg : string). (* [open] raises [IOError] *)

Inductive log_level : Type := DEBUG | INFO | WARNING.

(** One constructor for each message the plugin formats. *)
Inductive log_msg : Type :=
| Processing_items (n : nat)
| Set_artist_country (country : pyval) (artist title : string)
| Updated_items (n : nat)
| Error_loading_artist_cache (e : exn)
| Error_saving_artist_cache (e : exn)
| No_country_from_area (mb_artistid : string)
| Error_fetching_country (mb_artistid : string) (e : exn).

Inductive remote_call : Type :=
| Artist_by_id (mb_artistid : string)
| Area_by_id (id : pyval).

Record world : Type := World {
  cache_file : file_state;
  (** [Some msg]: creating the directory or opening the file for writing
      raises [IOError(msg)]. *)
  write_error : option string;
  log : list (log_level * log_msg);       (* oldest first *)
  remote_calls : list remote_call;        (* oldest first *)
  clock : nat                             (* readings of [datetime.now] *)
}.

(** The instance attributes of [CountryPlugin] that the methods use. *)
Record CountryPlugin : Type := Plugin { _cache : option cache }.

(** [CountryPlugin()]: [__init__] sets [_cache] to [None]. *)
Definition new_CountryPlugin : CountryPlugin := Plugin None.

(** State of a method call: the instance [self] and the world. *)
Abbreviation pstate := (CountryPlugin * world)%type.

Definition set_cache_file (f : file_state) (w : world) : world :=
  World f (write_error w) (log w) (remote_calls w) (clock w).

Definition add_log (l : log_level) (m : log_msg) (w : world) : world :=
  World (cache_file w) (write_error w) (log w ++ [(l, m)]) (remote_calls w) (clock w).

Definition add_call (c : remote_call) (w : world) : world :=
  World (cache_file w) (write_error w) (log w) (remote_calls w ++ [c]) (clock w).

Definition tick (w : world) : world :=
  World (cache_file w) (write_error w) (log w) (remote_calls w) (S (clock w)).

(** The MusicBrainz web service as the client library presents it, the
    clock, and the interpreter's bound on recursion depth. *)
Record environment : Type := Environment {
  get_artist_by_id : string -> outcome pyval;
  get_area_by_id : pyval -> outcome pyval;     (* with [includes=['area-rels']] *)
  isoformat : nat -> string;                   (* the n-th reading of the clock *)
  recursion_limit : nat
}.

(** Running a module-level function, which sees only the world, inside a
    method. *)
Definition in_world {A} (m : M world A) : M pstate A :=
  fun '(self, w) => let '(r, w') := m w in (r, (self, w')).

Definition self_log (l : log_level) (m : log_msg) : M pstate unit :=
  modify (fun '(self, w) => (self, add_log l m w)).

Definition set_self_cache (c : cache) : M pstate unit :=
  modify (fun '(_, w) => (Plugin (Some c), w)).

Definition get_self_cache : M pstate (option cache) :=
  fun '(self, w) => (Ret (_cache self), (self, w)).

(** ** Cache store *)

Definition os_path_exists : M pstate bool :=
  fun '(self, w) =>
    (Ret (match cache_file w with NoFile => false | _ => true end), (self, w)).

(** [with open(self.cache_file, 'r') as f: json.load(f)] *)
Definition read_json : M pstate cache :=
  fun '(self, w) =>
    match cache_file w with
    | NoFile => (Raise (Exn OSError "No such file or directory"), (self, w))
    | FileJSON c => (Ret c, (self, w))
    | FileCorrupt msg => (Raise (Exn JSONDecodeError msg), (self, w))
    | FileUnreadable msg => (Raise (Exn OSError msg), (self, w))
    end.

(** [os.makedirs(...)] then [with open(self.cache_file, 'w') as f:
    json.dump(c, f, indent=2)] *)
Definition write_json (c : cache) : M pstate unit :=
  fun '(self, w) =>
    match write_error w with
    | Some msg => (Raise (Exn OSError msg), (self, w))
    | None => (Ret tt, (self, set_cache_file (FileJSON c) w))
    end.

Definition load_cache : M pstate cache :=
  c0 <- get_self_cache ;;
  match c0 with
  | Some c => ret c
  | None =>
      try_except
        (ex <- os_path_exists ;;
         if ex : bool then c <- read_json ;; set_self_cache c
         else set_self_cache ∅)
        JSONDecodeError_or_IOError
        (fun e =>
           self_log WARNING (Error_loading_artist_cache e) ;;;
           set_self_cache ∅) ;;;
      c1 <- get_self_cache ;;
      ret (default ∅ c1)
  end.

Definition save_cache : M pstate unit :=
  c0 <- get_self_cache ;;
  match c0 with
  | None => ret tt
  | Some c =>
      try_except (write_json c) IOError
        (fun e => self_log WARNING (Error_saving_artist_cache e))
  end.

(** ** Walking up the area hierarchy *)

Definition call_get_area_by_id (env : environment) (id : pyval) : M world pyval :=
  fun w => (get_area_by_id env id, add_call (Area_by_id id) w).

Definition call_get_artist_by_id (env : environment) (id : string) : M world pyval :=
  fun w => (get_artist_by_id env id, add_call (Artist_by_id id) w).

Definition _has_country_iso_code (area : pyval) : outcome bool :=
  match getitem area "type" with
  | Raise e => Raise e
  | Ret t =>
      if eq_str t "Country" then py_in "iso-3166-1-code-list" area
      else Ret false
  end.

(** [[a['area'] for a in rels if a.get('direction', '') == 'backward']] *)
Fixpoint backward_areas (rels : list pyval) : outcome (list pyval) :=
  match rels with
  | [] => Ret []
  | a :: rels' =>
      match py_get a "direction" (PStr "") with
      | Raise e => Raise e
      | Ret d =>
          if eq_str d "backward" then
            match getitem a "area" with
            | Raise e => Raise e
            | Ret x =>
                match backward_areas rels' with
                | Raise e => Raise e
                | Ret xs => Ret (x :: xs)
                end
            end
          else backward_areas rels'
      end
  end.

(** [depth] is the number of frames the interpreter still allows; with
    none left the call raises [RecursionError]. *)
Fixpoint _find_top_area (env : environment) (depth : nat) (area : pyval)
    : M world pyval :=
  match depth with
  | O => raise (Exn RecursionError "maximum recursion depth exceeded")
  | S depth' =>
      id <- lift (getitem area "id") ;;
      new_area <- call_get_area_by_id env id ;;
      a <- lift (getitem new_area "area") ;;
      rels <- lift (getitem a "area-relation-list") ;;
      rels <- lift (py_iter rels) ;;
      new_area <- lift (backward_areas rels) ;;
      match new_area with
      | [] => lift (getitem area "iso-3166-1-code-list")
      | area' :: _ =>
          b <- lift (_has_country_iso_code area') ;;
          if b : bool then lift (getitem area' "iso-3166-1-code-list")
          else _find_top_area env depth' area'
      end
  end.

Definition _country_from_area (env : environment) (area : pyval) : M world pyval :=
  countries <- _find_top_area env (recursion_limit env) area ;;
  lift (getitem0 countries).

(** ** Country resolver *)

Definition datetime_now_isoformat (env : environment) : M pstate string :=
  fun '(self, w) => (Ret (isoformat env (clock w)), (self, tick w)).

(** The guard of [get_artist_country]:
    [not mb_artistid or len(mb_artistid) != 36 or mb_artistid.count('-') != 4] *)
Definition malformed (mb_artistid : string) : bool :=
  negb (truthy (PStr mb_artistid))
  || negb (String.length mb_artistid =? 36)%nat
  || negb (count_char "-" mb_artistid =? 4)%nat.

(** [country.lower() if country else ''] *)
Definition lower_or_empty (country : pyval) : outcome pyval :=
  if truthy country then py_lower country else Ret (PStr "").

Definition get_artist_country (env : environment) (mb_artistid : string)
    : M pstate pyval :=
  if malformed mb_artistid then ret (PStr "")
  else
    cache <- load_cache ;;
    match cache !! mb_artistid with
    | Some record => ret (dict_get record "country" (PStr ""))
    | None =>
        try_except
          (artist_item <- in_world (call_get_artist_by_id env mb_artistid) ;;
           artist <- lift (getitem artist_item "artist") ;;
           country <- lift (py_get artist "country" (PStr "")) ;;
           from_area <- (if truthy country then ret false
                         else lift (py_in "area" artist)) ;;
           country <- (if from_area : bool then
                         try_except
                           (area <- lift (getitem artist "area") ;;
                            in_world (_country_from_area env area))
                           Exception
                           (fun _ =>
                              self_log DEBUG (No_country_from_area mb_artistid) ;;;
                              ret country)
                       else ret country) ;;
           stored <- lift (lower_or_empty country) ;;
           now <- datetime_now_isoformat env ;;
           name <- lift (py_get artist "name" (PStr "")) ;;
           set_self_cache
             (<[mb_artistid := [("country", stored); ("cached", PStr now);
                                ("name", name)]]> cache) ;;;
           save_cache ;;;
           lift (lower_or_empty country))
          Exception
          (fun e =>
             self_log DEBUG (Error_fetching_country mb_artistid e) ;;;
             now <- datetime_now_isoformat env ;;
             set_self_cache
               (<[mb_artistid := [("country", PStr ""); ("cached", PStr now);
                                  ("error", PStr (exn_str e))]]> cache) ;;;
             save_cache ;;;
             ret (PStr ""))
    end.

(** ** Host integration *)

(** A library item of the host, as far as the plugin touches it: two
    fixed fields for the log line, the artist identifier, the flexible
    attributes in memory, and what [store] has written to the database. *)
Record Item : Type := MkItem {
  mb_artistid : string;
  artist : string;
  title : string;
  _values_flex : gmap string pyval;
  stored_flex : gmap string pyval;
  store_calls : nat
}.

(** [types.STRING.normalize(v)], the type [item_types] declares for
    [artist_country]: the empty string for [None], [str(v)] otherwise. *)
Definition STRING_normalize (v : pyval) : pyval :=
  match v with
  | PNone => PStr ""
  | _ => PStr (py_str v)
  end.

(** [item[k] = v] for a flexible attribute [k] of type [STRING]: the host
    stores the normalized value. *)
Definition item_setitem (k : string) (v : pyval) (item : Item) : Item :=
  MkItem (mb_artistid item) (artist item) (title item)
         (<[k := STRING_normalize v]> (_values_flex item)) (stored_flex item)
         (store_calls item).

(** [item.store()] *)
Definition item_store (item : Item) : Item :=
  MkItem (mb_artistid item) (artist item) (title item)
         (_values_flex item) (_values_flex item) (S (store_calls item)).

(** [item._values_flex.get(k)] *)
Definition flex_get (item : Item) (k : string) : pyval :=
  default PNone (_values_flex item !! k).

(** The body of the loop of [artistcountry_func], on one item and the
    counter [updated]. *)
Definition artistcountry_item (env : environment) (item : Item) (updated : nat)
    : M pstate (Item * nat) :=
  if negb (truthy (flex_get item "artist_country")) then
    country <- get_artist_country env (mb_artistid item) ;;
    if truthy country then
      let item := item_setitem "artist_country" country item in
      let item := item_store item in
      self_log DEBUG (Set_artist_country country (artist item) (title item)) ;;;
      ret (item, S updated)
    else ret (item, updated)
  else ret (item, updated).

(** [for item in items: ...] *)
Fixpoint artistcountry_loop (env : environment) (items : list Item) (updated : nat)
    : M pstate (list Item * nat) :=
  match items with
  | [] => ret ([], updated)
  | item :: items' =>
      r <- artistcountry_item env item updated ;;
      rs <- artistcountry_loop env items' (snd r) ;;
      ret (fst r :: fst rs, snd rs)
  end.

(** [artistcountry_func], given the items [lib.items(query)] returned;
    the result is those items after the run. *)
Definition artistcountry_func (env : environment) (items : list Item)
    : M pstate (list Item) :=
  self_log INFO (Processing_items (length items)) ;;;
  rs <- artistcountry_loop env items 0 ;;
  self_log INFO (Updated_items (snd rs)) ;;;
  ret (fst rs).

(** State of the module: the global [_plugin_instance] and the world. *)
Abbreviation mstate := (option CountryPlugin * world)%type.

Definition get_plugin_instance : M mstate CountryPlugin :=
  fun '(g, w) =>
    match g with
    | None => (Ret new_CountryPlugin, (Some new_CountryPlugin, w))
    | Some p => (Ret p, (g, w))
    end.

(** A method call on the global instance, which it mutates in place. *)
Definition on_instance {A} (m : M pstate A) : M mstate A :=
  fun '(g, w) =>
    let '(r, (self, w')) := m (default new_CountryPlugin g, w) in
    (r, (Some self, w')).

(** The template field; the result carries the item after the call. *)
Definition _tmpl_country (env : environment) (item : Item)
    : M mstate (pyval * Item) :=
  if truthy (flex_get item "artist_country") then
    match _values_flex item !! "artist_country" with
    | Some v => ret (v, item)
    | None => raise (Exn KeyError (quoted "artist_country"))
    end
  else
    get_plugin_instance ;;;
    country <- on_instance (get_artist_country env (mb_artistid item)) ;;
    if truthy country then
      ret (country, item_setitem "artist_country" country item)
    else ret (country, item).

(** * Vocabulary of the properties *)

(** [post m s Q]: running [m] from [s] ends, with a result and a state
    that satisfy [Q]. *)
Definition post {S A} (m : M S A) (s : S) (Q : outcome A -> S -> Prop) : Prop :=
  Q (fst (m s)) (snd (m s)).

Definition is_upper (c : ascii) : bool :=
  (65 <=? nat_of_ascii c)%nat && (nat_of_ascii c <=? 90)%nat.

(** No letter of [s] is an uppercase one. *)
Definition lowercase (s : string) : Prop :=
  forall c, In c (list_ascii_of_string s) -> is_upper c = false.

(** The state holds a cache that extends [c] by a record for [id] whose
    country is the result [r], a lowercase string. *)
Definition wrote_record (id : string) (c : cache) (r : outcome pyval)
    (st : pstate) : Prop :=
  exists s rest,
    r = Ret (PStr s) /\ lowercase s /\
    _cache (fst st) = Some (<[id := ("country", PStr s) :: rest]> c).

Definition and_then {A B} (o : outcome A) (k : A -> outcome B) : outcome B :=
  match o with
  | Ret a => k a
  | Raise e => Raise e
  end.

(** The areas that the service relates to [area] by a backward relation,
    in the order of its response. *)
Definition parents (env : environment) (area : pyval) : outcome (list pyval) :=
  and_then (getitem area "id") (fun id =>
  and_then (get_area_by_id env id) (fun response =>
  and_then (getitem response "area") (fun a =>
  and_then (getitem a "area-relation-list") (fun rels =>
  and_then (py_iter rels) backward_areas)))).

(** [hierarchy_top env n area top]: following the first backward relation
    from [area], the hierarchy ends at [top] after [n] lookups, either
    because [top] has no backward relation or because it is typed as a
    country and carries a code list. *)
Inductive hierarchy_top (env : environment) : nat -> pyval -> pyval -> Prop :=
| top_without_parent (area : pyval) :
    parents env area = Ret [] ->
    hierarchy_top env 1 area area
| top_parent_is_country (area parent : pyval) (others : list pyval) :
    parents env area = Ret (parent :: others) ->
    _has_country_iso_code parent = Ret true ->
    hierarchy_top env 1 area parent
| top_further_up (area parent : pyval) (others : list pyval) (n : nat) (top : pyval) :
    parents env area = Ret (parent :: others) ->
    _has_country_iso_code parent = Ret false ->
    hierarchy_top env n parent top ->
    hierarchy_top env (S n) area top.

(** The world after some more remote calls. *)
Definition add_calls (l : list remote_call) (w : world) : world :=
  World (cache_file w) (write_error w) (log w) (remote_calls w ++ l) (clock w).

(** The walk from [area] is the same under every large enough bound on
    the recursion depth: it ends by itself. *)
Definition walk_terminates (env : environment) (area : pyval) (w : world) : Prop :=
  exists depth, forall depth',
    depth <= depth' ->
    _find_top_area env depth' area w = _find_top_area env depth area w.

(** The remote lookup of the artist raises, or it returns an artist with
    no country and an area from which the walk up the hierarchy raises. *)
Definition resolution_raises (env : environment) (id : string) (w : world) : Prop :=
  (exists e, get_artist_by_id env id = Raise e)
  \/ (exists artist_item artist area e,
         get_artist_by_id env id = Ret artist_item
         /\ getitem artist_item "artist" = Ret (PDict artist)
         /\ truthy (dict_get artist "country" (PStr "")) = false
         /\ dict_lookup artist "area" = Some area
         /\ fst (_country_from_area env area w) = Raise e).

(** The call returned the empty string, left in the cache (which was [c])
    a record for [id] with an empty country, logged at debug level after
    [log1], and a further call for [id] makes no remote call. *)
Definition cached_as_unknown (env : environment) (id : string) (c : cache)
    (log1 : list (log_level * log_msg)) (res : outcome pyval * pstate) : Prop :=
  fst res = Ret (PStr "")
  /\ (exists record,
         _cache (fst (snd res)) = Some (<[id := record]> c)
         /\ dict_lookup record "country" = Some (PStr ""))
  /\ (exists m rest, log (snd (snd res)) = log1 ++ (DEBUG, m) :: rest)
  /\ remote_calls (snd (snd (get_artist_country env id (snd res))))
     = remote_calls (snd (snd res)).

(** The item carries a non-empty [artist_country] attribute. *)
Definition has_country (item : Item) : bool :=
  truthy (flex_get item "artist_country").

(** [item_run env st item item' st']: what the subcommand does with one
    item when it reaches it in the state [st]. An item with a country is
    left alone. For any other item the country is resolved by
    [get_artist_country] in that state; when it is non-empty it is
    assigned, the item is stored and the update is logged, otherwise the
    item stays as it was. *)
Definition item_run (env : environment) (st : pstate) (item item' : Item)
    (st' : pstate) : Prop :=
  if has_country item then item' = item /\ st' = st
  else
    exists country st1,
      get_artist_country env (mb_artistid item) st = (Ret country, st1)
      /\ if truthy country
         then item' = item_store (item_setitem "artist_country" country item)
              /\ st' = (fst st1,
                        add_log DEBUG
                          (Set_artist_country country (artist item) (title item))
                          (snd st1))
         else item' = item /\ st' = st1.

(** The items one after the other, each in the state the one before left. *)
Inductive items_run (env : environment)
    : pstate -> list Item -> list Item -> pstate -> Prop :=
| items_run_nil (st : pstate) : items_run env st [] [] st
| items_run_cons (st st1 st2 : pstate) (item item' : Item)
    (items items' : list Item) :
    item_run env st item item' st1 ->
    items_run env st1 items items' st2 ->
    items_run env st (item :: items) (item' :: items') st2.

Definition was_stored (item item' : Item) : bool :=
  negb (store_calls item' =? store_calls item)%nat.

(** The number of items that were stored during the run. *)
Fixpoint stored_count (items items' : list Item) : nat :=
  match items, items' with
  | item :: rest, item' :: rest' =>
      (if was_stored item item' then 1 else 0) + stored_count rest rest'
  | _, _ => 0
  end.

(** A remote call that looks up an area. *)
Definition is_area_call (c : remote_call) : bool :=
  match c with
  | Area_by_id _ => true
  | Artist_by_id _ => false
  end.

(** The identifiers of the artists looked up by a list of remote calls. *)
Fixpoint artist_lookups (calls : list remote_call) : list string :=
  match calls with
  | [] => []
  | Artist_by_id id :: calls' => id :: artist_lookups calls'
  | Area_by_id _ :: calls' => artist_lookups calls'
  end.

(** What a lookup that goes to the service leaves behind, from the world
    [w1] and the cache [c] it started with: a lowercase string [s] as
    result, a record for [id] with that country added to the cache, one
    artist lookup followed by at most [recursion_limit] area lookups, one
    reading of the clock, some log entries, and the cache on disk when the
    file can be written. *)
Definition lookup_effect (env : environment) (id : string) (c : cache)
    (w1 : world) (r : outcome pyval) (st' : pstate) : Prop :=
  exists (s : string) (rest : pydict) (calls : list remote_call)
         (entries : list (log_level * log_msg)),
    r = Ret (PStr s) /\ lowercase s
    /\ fst st' = Plugin (Some (<[id := ("country", PStr s) :: rest]> c))
    /\ remote_calls (snd st') = remote_calls w1 ++ Artist_by_id id :: calls
    /\ forallb is_area_call calls = true
    /\ length calls <= recursion_limit env
    /\ clock (snd st') = S (clock w1)
    /\ write_error (snd st') = write_error w1
    /\ log (snd st') = log w1 ++ entries
    /\ cache_file (snd st')
       = match write_error w1 with
         | None => FileJSON (<[id := ("country", PStr s) :: rest]> c)
         | Some _ => cache_file w1
         end.

(** Every key of the cache has the shape of an artist identifier. *)
Definition keys_well_formed (c : cache) : Prop :=
  forall k, is_Some (c !! k) -> malformed k = false.


(** The subcommand has nothing left to do for the item: it has a country,
    or its identifier is malformed, or the cache of the plugin records
    that no country is known for it. *)
Definition settled (self : CountryPlugin) (item : Item) : Prop :=
  has_country item = true
  \/ malformed (mb_artistid item) = true
  \/ exists c record,
       _cache self = Some c /\ c !! mb_artistid item = Some record
       /\ truthy (dict_get record "country" (PStr "")) = false.

(** The cache of [self'] has every record the cache of [self] has. *)
Definition cache_grows (self self' : CountryPlugin) : Prop :=
  forall c, _cache self = Some c ->
            exists c', _cache self' = Some c'
                       /\ forall k record, c !! k = Some record ->
                                           c' !! k = Some record.

(** Every artist that [calls] looks up has a record in the cache of
    [self]. *)
Definition lookups_cached (calls : list remote_call) (self : CountryPlugin) : Prop :=
  forall id, id ∈ artist_lookups calls ->
             exists c, _cache self = Some c /\ is_Some (c !! id).

(** ** Fixtures: a small MusicBrainz and a few worlds *)

Module Fixture.

Definition artist_id : string := "aaaaaaaa-bbbb-cccc-dddd-eeeeeeeeeeee".

Definition city : pyval :=
  PDict [("id", PStr "a1"); ("type", PStr "City")].
Definition subdivision : pyval :=
  PDict [("id", PStr "a2"); ("type", PStr "Subdivision")].
Definition country : pyval :=
  PDict [("id", PStr "a3"); ("type", PStr "Country");
         ("iso-3166-1-code-list", PList [PStr "US"])].

Definition relation (direction : string) (area : pyval) : pyval :=
  PDict [("direction", PStr direction); ("area", area)].

Definition area_response (id : string) (rels : list pyval) : outcome pyval :=
  Ret (PDict [("area", PDict [("id", PStr id); ("area-relation-list", PList rels)])]).

(** An artist without country, in a city of a subdivision of a country. *)
Definition musicbrainz : environment :=
  Environment
    (fun id =>
       if String.eqb id artist_id then
         Ret (PDict [("artist", PDict [("name", PStr "X"); ("area", city)])])
       else Raise (Exn WebServiceError "404"))
    (fun id =>
       if eq_str id "a1" then
         area_response "a1" [relation "forward" country; relation "backward" subdivision]
       else if eq_str id "a2" then
         area_response "a2" [relation "backward" country]
       else Raise (Exn WebServiceError "404"))
    (fun _ => "2024-01-01T00:00:00")
    1000.

(** Two areas that are each the other's parent. *)
Definition cyclic : environment :=
  Environment
    (fun _ => Raise (Exn WebServiceError "404"))
    (fun id =>
       if eq_str id "a1" then area_response "a1" [relation "backward" subdivision]
       else if eq_str id "a2" then area_response "a2" [relation "backward" city]
       else Raise (Exn WebServiceError "404"))
    (fun _ => "2024-01-01T00:00:00")
    1000.

(** An artist without country, in an area the service does not know. *)
Definition unknown_area : environment :=
  Environment
    (fun _ => Ret (PDict [("artist", PDict [("name", PStr "X"); ("area", city)])]))
    (fun _ => Raise (Exn WebServiceError "404"))
    (fun _ => "2024-01-01T00:00:00")
    1000.

(** The height of an area of [musicbrainz] below its country. *)
Definition rank (area : pyval) : nat :=
  match getitem area "id" with
  | Ret id => if eq_str id "a1" then 2 else if eq_str id "a2" then 1 else 0
  | Raise _ => 0
  end.

Definition empty_world : world := World NoFile None [] [] 0.


Definition record_us : pydict :=
  [("country", PStr "us"); ("cached", PStr "2024-01-01T00:00:00"); ("name", PStr "X")].

Definition item (id : string) (flex : gmap string pyval) : Item :=
  MkItem id "X" "Song" flex flex 0.

End Fixture.

(** ** More fixtures *)

Module Fixture2.

(** An artist whose record carries a country. *)
Definition with_country : environment :=
  Environment
    (fun _ => Ret (PDict [("artist", PDict [("name", PStr "X"); ("country", PStr "GB");
                                            ("area", Fixture.city)])]))
    (fun _ => Raise (Exn WebServiceError "404"))
    (fun _ => "2024-01-01T00:00:00")
    1000.

Definition corrupt_world : world :=
  World (FileCorrupt "Expecting value") None [] [] 0.

End Fixture2.

(** * Properties *)

(** ** Basic facts about the monad and the cache store *)

Ltac unfold_monad :=
  unfold self_log, set_self_cache, get_self_cache, os_path_exists, read_json,
    write_json, datetime_now_isoformat, call_get_area_by_id,
    call_get_artist_by_id, in_world, try_except, bind, ret, raise, lift,
    modify in *.

Ltac run := repeat (unfold_monad; simpl in * ).

Ltac finish_save :=
  unfold save_cache; run;
  match goal with
  | |- context [write_error ?w] => destruct (write_error w)
  end; simpl.

Lemma malformed_false (id : string) :
  malformed id = false ->
  id <> "" /\ String.length id = 36 /\ count_char "-" id = 4.
Proof.
  unfold malformed. intros H.
  apply orb_false_elim in H as [H H3].
  apply orb_false_elim in H as [H1 H2].
  apply negb_false_iff in H1, H2, H3.
  apply Nat.eqb_eq in H2, H3.
  split; [|split]; trivial.
  intros ->. discriminate.
Qed.

Lemma malformed_true (id : string) :
  id = "" \/ String.length id <> 36 \/ count_char "-" id <> 4 ->
  malformed id = true.
Proof.
  unfold malformed. intros [-> | [H | H]]; [reflexivity | |].
  - apply Nat.eqb_neq in H. rewrite H. simpl. now rewrite orb_true_r.
  - apply Nat.eqb_neq in H. rewrite H. simpl. apply orb_true_r.
Qed.

Lemma load_cache_inv (st : pstate) (r : outcome cache) (st1 : pstate) :
  load_cache st = (r, st1) ->
  exists c,
    r = Ret c /\ _cache (fst st1) = Some c /\
    cache_file (snd st1) = cache_file (snd st) /\
    write_error (snd st1) = write_error (snd st) /\
    remote_calls (snd st1) = remote_calls (snd st) /\
    clock (snd st1) = clock (snd st) /\
    (log (snd st1) = log (snd st) \/
     exists e, log (snd st1) = log (snd st) ++ [(WARNING, Error_loading_artist_cache e)]).
Proof.
  destruct st as [[oc] w]. unfold load_cache. run.
  destruct oc as [c|].
  - intros [= <- <-]. exists c. simpl. tauto.
  - destruct (cache_file w) eqn:Hf; simpl; rewrite ?Hf; simpl;
      intros [= <- <-]; simpl; rewrite ?Hf; eexists; repeat split; eauto.
Qed.

Lemma load_cache_loaded (st : pstate) (c : cache) :
  _cache (fst st) = Some c -> load_cache st = (Ret c, st).
Proof.
  destruct st as [[oc] w]. simpl. intros ->. reflexivity.
Qed.

Lemma save_cache_inv (st : pstate) (r : outcome unit) (st1 : pstate) :
  save_cache st = (r, st1) ->
  r = Ret tt /\ fst st1 = fst st /\
  remote_calls (snd st1) = remote_calls (snd st) /\
  clock (snd st1) = clock (snd st) /\
  write_error (snd st1) = write_error (snd st) /\
  (log (snd st1) = log (snd st) \/
   exists e, log (snd st1) = log (snd st) ++ [(WARNING, Error_saving_artist_cache e)]).
Proof.
  destruct st as [[oc] w]. unfold save_cache. run.
  destruct oc as [c|]; [|intros [= <- <-]; simpl; tauto].
  destruct (write_error w) eqn:Hw; simpl; intros [= <- <-]; simpl;
    repeat split; eauto.
Qed.

(** ** Postconditions of monadic code *)

Section Post.
Context {S A B : Type}.

Lemma post_any (m : M S A) (s : S) (Q : outcome A -> S -> Prop) :
  (forall r s', Q r s') -> post m s Q.
Proof. unfold post. auto. Qed.

Lemma post_bind (m : M S A) (k : A -> M S B) (s : S) (Q : outcome B -> S -> Prop) :
  post m s (fun r s' =>
              match r with
              | Ret a => post (k a) s' Q
              | Raise e => Q (Raise e) s'
              end) ->
  post (bind m k) s Q.
Proof. unfold post, bind. destruct (m s) as [[a|e] s']; trivial. Qed.

Lemma post_try_except (body : M S A) (classes : exn_class -> bool)
    (handler : exn -> M S A) (s : S) (Q : outcome A -> S -> Prop) :
  post body s (fun r s' =>
                 match r with
                 | Ret a => Q (Ret a) s'
                 | Raise e =>
                     if classes (exn_type e) then post (handler e) s' Q
                     else Q (Raise e) s'
                 end) ->
  post (try_except body classes handler) s Q.
Proof.
  unfold post, try_except. destruct (body s) as [[a|e] s']; trivial.
  simpl. destruct (classes (exn_type e)); trivial.
Qed.
End Post.

(** ** What [get_artist_country] writes *)

Lemma lower_ascii_not_upper (c : ascii) : is_upper (lower_ascii c) = false.
Proof.
  unfold lower_ascii, is_upper.
  destruct ((65 <=? nat_of_ascii c)%nat && (nat_of_ascii c <=? 90)%nat) eqn:H;
    [|exact H].
  apply andb_true_iff in H as [H1 H2].
  apply Nat.leb_le in H1, H2.
  rewrite nat_ascii_embedding by lia.
  apply andb_false_iff. right. apply Nat.leb_gt. lia.
Qed.

Lemma lower_lowercase (s : string) : lowercase (lower s).
Proof.
  unfold lowercase. induction s as [|a s IH]; simpl; [tauto|].
  intros c [<- | H]; [apply lower_ascii_not_upper | auto].
Qed.

Lemma lower_or_empty_inv (country v : pyval) :
  lower_or_empty country = Ret v -> exists s, v = PStr s /\ lowercase s.
Proof.
  unfold lower_or_empty. destruct (truthy country).
  - destruct country; simpl; try discriminate.
    intros [= <-]. eexists. split; [reflexivity | apply lower_lowercase].
  - intros [= <-]. exists "". split; [reflexivity | intros c []].
Qed.

Lemma save_cache_post (st : pstate) (Q : outcome unit -> pstate -> Prop) :
  (forall w', Q (Ret tt) (fst st, w')) -> post save_cache st Q.
Proof.
  intros H. unfold post.
  destruct (save_cache st) as [r [self' w']] eqn:Hs.
  apply save_cache_inv in Hs as (-> & Hself & _). simpl in *. subst self'.
  apply H.
Qed.

Lemma cache_failure_post (env : environment) (id : string) (c : cache)
    (e : exn) (st : pstate) :
  post (self_log DEBUG (Error_fetching_country id e) ;;;
        now <- datetime_now_isoformat env ;;
        set_self_cache
          (<[id := [("country", PStr ""); ("cached", PStr now);
                    ("error", PStr (exn_str e))]]> c) ;;;
        save_cache ;;;
        ret (PStr ""))
       st (wrote_record id c).
Proof.
  destruct st as [self w].
  do 3 (apply post_bind; unfold post at 1; simpl).
  apply post_bind, save_cache_post. intros w'. unfold post. simpl.
  eexists "", _. repeat split. intros ch [].
Qed.

Ltac skip_step H :=
  apply post_bind, post_any; intros [?|?] ?; [|apply H].

Lemma get_artist_country_uncached (env : environment) (id : string)
    (st st1 : pstate) (c : cache) :
  malformed id = false -> load_cache st = (Ret c, st1) -> c !! id = None ->
  post (get_artist_country env id) st (wrote_record id c).
Proof.
  intros Hm Hl Hc. unfold get_artist_country. rewrite Hm.
  apply post_bind. unfold post at 1. rewrite Hl. simpl. rewrite Hc.
  apply post_try_except. unfold Exception.
  pose proof (cache_failure_post env id c) as Hfail.
  do 5 skip_step Hfail.
  rename a3 into country.
  apply post_bind. unfold post at 1. simpl.
  destruct (lower_or_empty country) as [stored|e] eqn:Hlow; [|apply Hfail].
  do 2 skip_step Hfail.
  apply post_bind. unfold post at 1. simpl.
  apply post_bind, save_cache_post. intros w'.
  unfold post, lift. simpl.
  apply lower_or_empty_inv in Hlow as (s & -> & Hs).
  destruct s'5 as [self5 w5]. simpl.
  eexists s, _. repeat split; trivial.
Qed.

Lemma get_artist_country_returns (env : environment) (id : string) (st : pstate) :
  exists v st', get_artist_country env id st = (Ret v, st').
Proof.
  destruct (malformed id) eqn:Hm.
  - unfold get_artist_country. rewrite Hm. eexists _, _. reflexivity.
  - destruct (load_cache st) as [r st1] eqn:Hl.
    destruct (load_cache_inv _ _ _ Hl) as (c & -> & _).
    destruct (c !! id) as [record|] eqn:Hc.
    + unfold get_artist_country. rewrite Hm. unfold bind. rewrite Hl, Hc.
      eexists _, _. reflexivity.
    + pose proof (get_artist_country_uncached env id st st1 c Hm Hl Hc) as H.
      unfold post in H. destruct H as (s & rest & Hr & _).
      destruct (get_artist_country env id st) as [r st2]. simpl in Hr. subst r.
      eexists _, _. reflexivity.
Qed.

(** ** Malformed and cached identifiers *)

(** C2. An identifier that is empty, not 36 characters long, or without
    exactly four hyphens resolves to the empty string, and nothing else
    happens: no exception, and the plugin and the world (cache, cache file,
    log, remote calls) stay as they were. *)
Theorem malformed_identifier_resolves_to_empty (env : environment)
    (id : string) (st : pstate) :
  id = "" \/ String.length id <> 36 \/ count_char "-" id <> 4 ->
  get_artist_country env id st = (Ret (PStr ""), st).
Proof.
  intros H. unfold get_artist_country.
  rewrite (malformed_true id H). reflexivity.
Qed.

Lemma malformed_identifier_resolves_to_empty_witness :
  get_artist_country Fixture.musicbrainz "not-an-mbid"
    (new_CountryPlugin, Fixture.empty_world)
  = (Ret (PStr ""), (new_CountryPlugin, Fixture.empty_world)).
Proof.
  apply (malformed_identifier_resolves_to_empty Fixture.musicbrainz "not-an-mbid").
  right. left. simpl. lia.
Defined.

(** C1, as the code has it. For an identifier that is a key of the loaded
    cache no remote call is made; a well-formed one resolves to the
    country of its cached record (the empty string when the record has
    none), any other one to the empty string, the cache not being
    consulted. *)
Theorem cached_identifier_served_from_cache (env : environment) (id : string)
    (st st1 : pstate) (c : cache) (record : pydict) :
  load_cache st = (Ret c, st1) ->
  c !! id = Some record ->
  get_artist_country env id st =
    (if malformed id then (Ret (PStr ""), st)
     else (Ret (dict_get record "country" (PStr "")), st1))
  /\ remote_calls (snd (snd (get_artist_country env id st))) = remote_calls (snd st).
Proof.
  intros Hl Hc.
  assert (get_artist_country env id st =
          (if malformed id then (Ret (PStr ""), st)
           else (Ret (dict_get record "country" (PStr "")), st1))) as E.
  { unfold get_artist_country. destruct (malformed id); [reflexivity|].
    unfold bind. rewrite Hl, Hc. reflexivity. }
  split; [exact E|]. rewrite E.
  destruct (malformed id); [reflexivity|]. simpl.
  apply load_cache_inv in Hl. destruct Hl as (? & _ & _ & _ & _ & H & _).
  exact H.
Qed.

Lemma cached_identifier_served_from_cache_witness :
  let st := (Plugin (Some {[Fixture.artist_id := Fixture.record_us]}),
             Fixture.empty_world) in
  get_artist_country Fixture.musicbrainz Fixture.artist_id st = (Ret (PStr "us"), st)
  /\ remote_calls (snd (snd (get_artist_country Fixture.musicbrainz Fixture.artist_id st)))
     = [].
Proof.
  intros st.
  apply (cached_identifier_served_from_cache Fixture.musicbrainz Fixture.artist_id
           st st {[Fixture.artist_id := Fixture.record_us]} Fixture.record_us).
  - reflexivity.
  - apply lookup_singleton_eq.
Defined.

(** C1 as stated fails: a key of the loaded cache that is not of the
    identifier shape resolves to the empty string, whatever its record
    holds. *)
Lemma cached_identifier_counterexample :
  ~ (forall (env : environment) (id : string) (st st1 : pstate) (c : cache)
            (record : pydict),
        load_cache st = (Ret c, st1) ->
        c !! id = Some record ->
        fst (get_artist_country env id st)
        = Ret (dict_get record "country" (PStr ""))
        /\ remote_calls (snd (snd (get_artist_country env id st)))
           = remote_calls (snd st)).
Proof.
  intros H.
  specialize (H Fixture.musicbrainz "abc"
                (new_CountryPlugin,
                 World (FileJSON {["abc" := Fixture.record_us]}) None [] [] 0)
                _ _ Fixture.record_us eq_refl (lookup_singleton_eq _ _)).
  destruct H as [H _]. discriminate H.
Qed.

(** ** What is written is lowercase and is what is returned *)

(** C9. A call of [get_artist_country] either writes nothing to the cache
    (malformed or cached identifier), or adds exactly one record, under
    the identifier, whose country field is a string without uppercase
    letters (possibly empty) and is the value the call returns. *)
Theorem written_country_is_lowercase_and_returned (env : environment)
    (id : string) (st st1 : pstate) (c : cache) :
  load_cache st = (Ret c, st1) ->
  (malformed id = true /\ snd (get_artist_country env id st) = st)
  \/ (malformed id = false /\ is_Some (c !! id)
      /\ snd (get_artist_country env id st) = st1)
  \/ (malformed id = false /\ c !! id = None
      /\ wrote_record id c (fst (get_artist_country env id st))
                           (snd (get_artist_country env id st))).
Proof.
  intros Hl. destruct (malformed id) eqn:Hm.
  - left. split; [reflexivity|]. unfold get_artist_country. now rewrite Hm.
  - right. destruct (c !! id) as [record|] eqn:Hc.
    + left. split; [reflexivity|]. split; [eauto|].
      unfold get_artist_country, bind. now rewrite Hm, Hl, Hc.
    + right. split; [reflexivity|]. split; [reflexivity|].
      exact (get_artist_country_uncached env id st st1 c Hm Hl Hc).
Qed.

Lemma written_country_is_lowercase_and_returned_witness :
  wrote_record Fixture.artist_id ∅
    (fst (get_artist_country Fixture.musicbrainz Fixture.artist_id
            (new_CountryPlugin, Fixture.empty_world)))
    (snd (get_artist_country Fixture.musicbrainz Fixture.artist_id
            (new_CountryPlugin, Fixture.empty_world))).
Proof.
  destruct (written_country_is_lowercase_and_returned Fixture.musicbrainz
              Fixture.artist_id (new_CountryPlugin, Fixture.empty_world)
              (Plugin (Some ∅), Fixture.empty_world) ∅ eq_refl)
    as [[H _] | [(_ & [? H] & _) | (_ & _ & H)]].
  - discriminate H.
  - discriminate H.
  - exact H.
Defined.

(** ** Saving and reloading the cache *)




(** ** The template field *)

(** C10. On an item whose flexible attribute [artist_country] is set and
    non-empty, the template field returns that value and leaves everything
    as it was: the item, the global plugin instance and its cache, the
    remote calls, the log. *)
Theorem template_field_returns_stored_value (env : environment) (item : Item)
    (st : mstate) (v : pyval) :
  _values_flex item !! "artist_country" = Some v ->
  truthy v = true ->
  _tmpl_country env item st = (Ret (v, item), st).
Proof.
  intros Hv Ht. unfold _tmpl_country, flex_get. rewrite Hv. simpl.
  rewrite Ht. reflexivity.
Qed.

Lemma template_field_returns_stored_value_witness :
  _tmpl_country Fixture.musicbrainz
    (Fixture.item Fixture.artist_id {["artist_country" := PStr "us"]})
    (None, Fixture.empty_world)
  = (Ret (PStr "us", Fixture.item Fixture.artist_id {["artist_country" := PStr "us"]}),
     (None, Fixture.empty_world)).
Proof.
  apply (template_field_returns_stored_value Fixture.musicbrainz
           (Fixture.item Fixture.artist_id {["artist_country" := PStr "us"]})
           (None, Fixture.empty_world) (PStr "us")).
  - apply lookup_singleton_eq.
  - reflexivity.
Defined.

(** C5. Evaluating the template field always returns, and never calls
    [item.store()]: the item comes back either untouched or with the
    resolved, non-empty country assigned to its in-memory attribute, its
    stored attributes and its count of [store] calls being the same. *)
Theorem template_field_never_stores (env : environment) (item : Item)
    (st : mstate) :
  exists v item' st',
    _tmpl_country env item st = (Ret (v, item'), st')
    /\ store_calls item' = store_calls item
    /\ stored_flex item' = stored_flex item
    /\ (item' = item
        \/ truthy v = true /\ item' = item_setitem "artist_country" v item).
Proof.
  unfold _tmpl_country, flex_get.
  destruct (_values_flex item !! "artist_country") as [v|] eqn:Hv; simpl.
  - destruct (truthy v) eqn:Ht.
    + exists v, item, st. auto.
    + destruct st as [g w]. unfold bind, get_plugin_instance, on_instance.
      destruct (get_artist_country_returns env (mb_artistid item)
                  (default new_CountryPlugin g, w)) as (v' & [self' w'] & E).
      destruct g as [p|]; simpl in *; rewrite E;
        destruct (truthy v') eqn:Ht'; eexists _, _, _; simpl; eauto 6.
  - destruct st as [g w]. unfold bind, get_plugin_instance, on_instance.
    destruct (get_artist_country_returns env (mb_artistid item)
                (default new_CountryPlugin g, w)) as (v' & [self' w'] & E).
    destruct g as [p|]; simpl in *; rewrite E;
      destruct (truthy v') eqn:Ht'; eexists _, _, _; simpl; eauto 6.
Qed.

(** ** The area hierarchy *)

Lemma _find_top_area_S (env : environment) (d : nat) (area : pyval) (w : world) :
  _find_top_area env (S d) area w =
  match getitem area "id" with
  | Raise e => (Raise e, w)
  | Ret id =>
      let w' := add_call (Area_by_id id) w in
      match parents env area with
      | Raise e => (Raise e, w')
      | Ret [] => (getitem area "iso-3166-1-code-list", w')
      | Ret (area' :: _) =>
          match _has_country_iso_code area' with
          | Raise e => (Raise e, w')
          | Ret true => (getitem area' "iso-3166-1-code-list", w')
          | Ret false => _find_top_area env d area' w'
          end
      end
  end.
Proof.
  unfold parents, and_then. simpl. run.
  destruct (getitem area "id") as [id|e]; [|reflexivity].
  destruct (get_area_by_id env id) as [response|e]; [|reflexivity].
  destruct (getitem response "area") as [a|e]; [|reflexivity].
  destruct (getitem a "area-relation-list") as [rels|e]; [|reflexivity].
  destruct (py_iter rels) as [l|e]; [|reflexivity].
  destruct (backward_areas l) as [[|area' ?]|e]; try reflexivity.
  destruct (_has_country_iso_code area') as [[|]|e]; reflexivity.
Qed.

Lemma add_calls_add_call (c : remote_call) (l : list remote_call) (w : world) :
  add_calls l (add_call c w) = add_calls (c :: l) w.
Proof.
  unfold add_calls, add_call. simpl. now rewrite <- app_assoc.
Qed.

(** The walk only adds remote calls to the world, and its result does not
    depend on the world. *)
Lemma _find_top_area_trace (env : environment) (d : nat) (area : pyval) :
  exists r l, forall w, _find_top_area env d area w = (r, add_calls l w).
Proof.
  revert area. induction d as [|d IH]; intros area.
  - exists (Raise (Exn RecursionError "maximum recursion depth exceeded")), [].
    intros [f we lg rc ck]. unfold add_calls. simpl.
    unfold raise. now rewrite app_nil_r.
  - assert (forall r c, exists r' l, forall w,
               (r, add_call c w) = (r' : outcome pyval, add_calls l w)) as Hone.
    { intros r c. exists r, [c]. reflexivity. }
    assert (forall r, exists r' l, forall w : world,
               (r, w) = (r' : outcome pyval, add_calls l w)) as Hzero.
    { intros r. exists r, []. intros [f we lg rc ck]. unfold add_calls. simpl.
      now rewrite app_nil_r. }
    setoid_rewrite _find_top_area_S.
    destruct (getitem area "id") as [id|e]; [|apply Hzero]. cbv zeta.
    destruct (parents env area) as [[|area' others]|e]; try apply Hone.
    destruct (_has_country_iso_code area') as [[|]|e]; try apply Hone.
    destruct (IH area') as (r & calls & H).
    exists r, (Area_by_id id :: calls). intros w.
    now rewrite H, add_calls_add_call.
Qed.

Lemma _country_from_area_trace (env : environment) (area : pyval) :
  exists r l, forall w, _country_from_area env area w = (r, add_calls l w).
Proof.
  destruct (_find_top_area_trace env (recursion_limit env) area) as (r & l & H).
  unfold _country_from_area, bind, lift.
  destruct r as [countries|e].
  - exists (getitem0 countries), l. intros w. now rewrite H.
  - exists (Raise e), l. intros w. now rewrite H.
Qed.

Lemma parents_id (env : environment) (area : pyval) (l : list pyval) :
  parents env area = Ret l -> exists id, getitem area "id" = Ret id.
Proof.
  unfold parents, and_then. destruct (getitem area "id"); [eauto | discriminate].
Qed.

(** When the hierarchy ends at [top] within the bound, the walk returns
    the code list of [top], or raises as the lookup of that list does. *)
Lemma _find_top_area_reaches (env : environment) (n : nat) (area top : pyval) :
  hierarchy_top env n area top ->
  forall depth w, n <= depth ->
    fst (_find_top_area env depth area w) = getitem top "iso-3166-1-code-list".
Proof.
  induction 1 as [area Hp | area parent others Hp Hc
                 | area parent others n top Hp Hc Hn IH];
    intros depth w Hle; (destruct depth as [|d]; [lia|]);
    rewrite _find_top_area_S; destruct (parents_id _ _ _ Hp) as [id ->];
    cbv zeta; rewrite Hp.
  - reflexivity.
  - now rewrite Hc.
  - rewrite Hc. apply IH. lia.
Qed.

(** ** Failures are cached *)

Lemma get_artist_country_cached (env : environment) (id : string) (st : pstate)
    (c : cache) (record : pydict) :
  malformed id = false -> _cache (fst st) = Some c -> c !! id = Some record ->
  get_artist_country env id st = (Ret (dict_get record "country" (PStr "")), st).
Proof.
  intros Hm Hs Hc. unfold get_artist_country, bind.
  now rewrite Hm, (load_cache_loaded st c Hs), Hc.
Qed.

Lemma cached_as_unknown_intro (env : environment) (id : string) (c : cache)
    (log1 : list (log_level * log_msg)) (record : pydict) (w : world)
    (m : log_msg) (rest : list (log_level * log_msg)) :
  malformed id = false ->
  dict_lookup record "country" = Some (PStr "") ->
  log w = log1 ++ (DEBUG, m) :: rest ->
  cached_as_unknown env id c log1
    (Ret (PStr ""), (Plugin (Some (<[id := record]> c)), w)).
Proof.
  intros Hm Hr Hlog. unfold cached_as_unknown. simpl.
  split; [reflexivity|]. split; [eauto|]. split; [eauto|].
  erewrite get_artist_country_cached;
    [reflexivity | exact Hm | reflexivity | apply lookup_insert_eq].
Qed.

Lemma fetch_raises_cached (env : environment) (id : string) (st st1 : pstate)
    (c : cache) (e : exn) :
  malformed id = false -> load_cache st = (Ret c, st1) -> c !! id = None ->
  get_artist_by_id env id = Raise e ->
  cached_as_unknown env id c (log (snd st1)) (get_artist_country env id st).
Proof.
  intros Hm Hl Hc Hfetch.
  unfold get_artist_country. rewrite Hm. unfold bind at 1.
  rewrite Hl, Hc. destruct st1 as [self1 w1].
  unfold try_except, bind at 1, in_world, call_get_artist_by_id.
  rewrite Hfetch. unfold Exception. finish_save;
    eapply cached_as_unknown_intro; trivial; simpl;
    rewrite <- app_assoc; reflexivity.
Qed.

Lemma walk_raises_cached (env : environment) (id : string) (st st1 : pstate)
    (c : cache) (artist_item : pyval) (artist : pydict) (area : pyval) (e : exn) :
  malformed id = false -> load_cache st = (Ret c, st1) -> c !! id = None ->
  get_artist_by_id env id = Ret artist_item ->
  getitem artist_item "artist" = Ret (PDict artist) ->
  truthy (dict_get artist "country" (PStr "")) = false ->
  dict_lookup artist "area" = Some area ->
  fst (_country_from_area env area (snd st)) = Raise e ->
  cached_as_unknown env id c (log (snd st1)) (get_artist_country env id st).
Proof.
  intros Hm Hl Hc Hitem Hartist Hcountry Harea Hraise.
  destruct (_country_from_area_trace env area) as (r & l & Hwalk).
  rewrite Hwalk in Hraise. simpl in Hraise. subst r.
  unfold get_artist_country. rewrite Hm. unfold bind at 1.
  rewrite Hl, Hc. destruct st1 as [self1 w1].
  unfold try_except, bind at 1, in_world, call_get_artist_by_id.
  rewrite Hitem. unfold bind at 1, lift at 1. rewrite Hartist.
  unfold bind at 1, lift at 1, py_get. rewrite Hcountry.
  unfold bind at 1, lift at 1, py_in. rewrite Harea.
  unfold bind at 1, bind at 1, lift at 1, getitem.
  rewrite Harea, Hwalk. unfold Exception, lower_or_empty. run.
  rewrite Hcountry. finish_save;
    eapply cached_as_unknown_intro; trivial; simpl;
    rewrite <- app_assoc; reflexivity.
Qed.

(** C4. For a well-formed identifier that is not in the cache, when the
    remote lookup of the artist raises, or the walk up the area hierarchy
    raises, [get_artist_country] returns the empty string instead of
    raising, logs at debug level, and leaves in the cache a record for the
    identifier with an empty country, so that a later call for it makes no
    remote call. *)
Theorem failure_is_caught_logged_and_cached (env : environment) (id : string)
    (st st1 : pstate) (c : cache) :
  malformed id = false ->
  load_cache st = (Ret c, st1) ->
  c !! id = None ->
  resolution_raises env id (snd st) ->
  cached_as_unknown env id c (log (snd st1)) (get_artist_country env id st).
Proof.
  intros Hm Hl Hc [[e He] | (artist_item & artist & area & e & H1 & H2 & H3 & H4 & H5)].
  - exact (fetch_raises_cached env id st st1 c e Hm Hl Hc He).
  - exact (walk_raises_cached env id st st1 c artist_item artist area e
             Hm Hl Hc H1 H2 H3 H4 H5).
Qed.

Lemma failure_is_caught_logged_and_cached_witness :
  cached_as_unknown Fixture.unknown_area Fixture.artist_id ∅ []
    (get_artist_country Fixture.unknown_area Fixture.artist_id
       (new_CountryPlugin, Fixture.empty_world)).
Proof.
  apply (failure_is_caught_logged_and_cached Fixture.unknown_area
           Fixture.artist_id (new_CountryPlugin, Fixture.empty_world)
           (Plugin (Some ∅), Fixture.empty_world) ∅).
  - reflexivity.
  - reflexivity.
  - apply lookup_empty.
  - right.
    exists (PDict [("artist", PDict [("name", PStr "X"); ("area", Fixture.city)])]),
      [("name", PStr "X"); ("area", Fixture.city)], Fixture.city,
      (Exn WebServiceError "404").
    repeat split; reflexivity.
Defined.

(** ** Country from the area hierarchy *)

(** C3, as the code has it. For a well-formed identifier that is not in
    the cache, whose artist record has no country but an area, when the
    hierarchy above that area ends (within the recursion bound) at an area
    whose code list starts with the string [code], [get_artist_country]
    returns [code] in lowercase. *)
Theorem country_from_area_hierarchy (env : environment) (id : string)
    (st st1 : pstate) (c : cache) (artist_item : pyval) (artist : pydict)
    (area top : pyval) (n : nat) (code : string) (codes : list pyval) :
  malformed id = false ->
  load_cache st = (Ret c, st1) ->
  c !! id = None ->
  get_artist_by_id env id = Ret artist_item ->
  getitem artist_item "artist" = Ret (PDict artist) ->
  truthy (dict_get artist "country" (PStr "")) = false ->
  dict_lookup artist "area" = Some area ->
  hierarchy_top env n area top ->
  n <= recursion_limit env ->
  getitem top "iso-3166-1-code-list" = Ret (PList (PStr code :: codes)) ->
  fst (get_artist_country env id st) = Ret (PStr (lower code)).
Proof.
  intros Hm Hl Hc Hitem Hartist Hcountry Harea Htop Hn Hcodes.
  destruct (_country_from_area_trace env area) as (r & l & Hwalk).
  assert (r = Ret (PStr code)) as ->.
  { specialize (Hwalk (snd st)). apply (f_equal fst) in Hwalk. simpl in Hwalk.
    rewrite <- Hwalk. unfold _country_from_area, bind, lift.
    pose proof (_find_top_area_reaches env n area top Htop
                  (recursion_limit env) (snd st) Hn) as Hr.
    destruct (_find_top_area env (recursion_limit env) area (snd st)) as [r' w'].
    simpl in Hr. subst r'. rewrite Hcodes. reflexivity. }
  unfold get_artist_country. rewrite Hm. unfold bind at 1.
  rewrite Hl, Hc. destruct st1 as [self1 w1].
  unfold try_except, bind at 1, in_world, call_get_artist_by_id.
  rewrite Hitem. unfold bind at 1, lift at 1. rewrite Hartist.
  unfold bind at 1, lift at 1, py_get. rewrite Hcountry.
  unfold bind at 1, lift at 1, py_in. rewrite Harea.
  unfold bind at 1, bind at 1, lift at 1, getitem.
  rewrite Harea, Hwalk. unfold lower_or_empty. run.
  destruct code as [|ch code']; simpl; finish_save; reflexivity.
Qed.

Lemma country_from_area_hierarchy_witness :
  fst (get_artist_country Fixture.musicbrainz Fixture.artist_id
         (new_CountryPlugin, Fixture.empty_world))
  = Ret (PStr "us").
Proof.
  apply (country_from_area_hierarchy Fixture.musicbrainz Fixture.artist_id
           (new_CountryPlugin, Fixture.empty_world)
           (Plugin (Some ∅), Fixture.empty_world) ∅
           (PDict [("artist", PDict [("name", PStr "X"); ("area", Fixture.city)])])
           [("name", PStr "X"); ("area", Fixture.city)]
           Fixture.city Fixture.country 2 "US" []).
  - reflexivity.
  - reflexivity.
  - apply lookup_empty.
  - reflexivity.
  - reflexivity.
  - reflexivity.
  - reflexivity.
  - apply (top_further_up _ Fixture.city Fixture.subdivision [] 1 Fixture.country).
    + reflexivity.
    + reflexivity.
    + apply (top_parent_is_country _ Fixture.subdivision Fixture.country []);
        reflexivity.
  - simpl. lia.
  - reflexivity.
Defined.

(** C3 as stated fails: the code the hierarchy ends in is [US], the value
    returned is [us]. *)
Lemma country_from_area_hierarchy_counterexample :
  ~ (forall (env : environment) (id : string) (st st1 : pstate) (c : cache)
            (artist_item : pyval) (artist : pydict) (area top : pyval) (n : nat)
            (code : string) (codes : list pyval),
        malformed id = false ->
        load_cache st = (Ret c, st1) ->
        c !! id = None ->
        get_artist_by_id env id = Ret artist_item ->
        getitem artist_item "artist" = Ret (PDict artist) ->
        truthy (dict_get artist "country" (PStr "")) = false ->
        dict_lookup artist "area" = Some area ->
        hierarchy_top env n area top ->
        n <= recursion_limit env ->
        getitem top "type" = Ret (PStr "Country") ->
        getitem top "iso-3166-1-code-list" = Ret (PList (PStr code :: codes)) ->
        fst (get_artist_country env id st) = Ret (PStr code)).
Proof.
  intros H.
  specialize (H Fixture.musicbrainz Fixture.artist_id
                (new_CountryPlugin, Fixture.empty_world)
                (Plugin (Some ∅), Fixture.empty_world) ∅
                (PDict [("artist", PDict [("name", PStr "X"); ("area", Fixture.city)])])
                [("name", PStr "X"); ("area", Fixture.city)]
                Fixture.city Fixture.country 2 "US" []
                eq_refl eq_refl (lookup_empty _) eq_refl eq_refl eq_refl eq_refl).
  assert (hierarchy_top Fixture.musicbrainz 2 Fixture.city Fixture.country) as Htop.
  { apply (top_further_up _ Fixture.city Fixture.subdivision [] 1 Fixture.country);
      [reflexivity | reflexivity |].
    apply (top_parent_is_country _ Fixture.subdivision Fixture.country []);
      reflexivity. }
  specialize (H Htop).
  assert (2 <= recursion_limit Fixture.musicbrainz) as Hn by (simpl; lia).
  specialize (H Hn eq_refl eq_refl).
  vm_compute in H. discriminate H.
Qed.

(** ** Termination of the walk *)

Lemma _find_top_area_bound_irrelevant (env : environment) (rank : pyval -> nat) :
  (forall a parent others,
      parents env a = Ret (parent :: others) ->
      _has_country_iso_code parent = Ret false ->
      rank parent < rank a) ->
  forall n area depth w,
    rank area < n -> n <= depth ->
    _find_top_area env depth area w = _find_top_area env n area w.
Proof.
  intros Hrank. induction n as [|n IH]; intros area depth w Hlt Hle; [lia|].
  destruct depth as [|depth]; [lia|].
  rewrite !_find_top_area_S.
  destruct (getitem area "id") as [id|e]; [|reflexivity]. cbv zeta.
  destruct (parents env area) as [[|parent others]|e] eqn:Hp; try reflexivity.
  destruct (_has_country_iso_code parent) as [[|]|e] eqn:Hc; try reflexivity.
  apply IH; [|lia].
  specialize (Hrank area parent others Hp Hc). lia.
Qed.

(** C7, as the code has it. On a hierarchy without cycles, that is one
    with a rank that decreases from an area to the parent the walk moves
    to, [_find_top_area] terminates: from some bound on the recursion depth
    on, the walk does not depend on the bound. *)
Theorem find_top_area_terminates_without_cycles (env : environment)
    (rank : pyval -> nat) (area : pyval) (w : world) :
  (forall a parent others,
      parents env a = Ret (parent :: others) ->
      _has_country_iso_code parent = Ret false ->
      rank parent < rank a) ->
  walk_terminates env area w.
Proof.
  intros Hrank. exists (S (rank area)). intros depth' Hle.
  apply (_find_top_area_bound_irrelevant env rank Hrank); [lia | exact Hle].
Qed.

(** In the cyclic hierarchy the walk goes on as long as the bound lets it:
    it makes as many remote calls as the bound and then fails on it. *)
Lemma cyclic_walk (depth : nat) :
  forall area w,
    area = Fixture.city \/ area = Fixture.subdivision ->
    fst (_find_top_area Fixture.cyclic depth area w)
    = Raise (Exn RecursionError "maximum recursion depth exceeded")
    /\ length (remote_calls (snd (_find_top_area Fixture.cyclic depth area w)))
       = length (remote_calls w) + depth.
Proof.
  induction depth as [|depth IH]; intros area w Harea.
  - simpl. split; [reflexivity | lia].
  - rewrite _find_top_area_S.
    destruct Harea as [-> | ->]; cbn -[_find_top_area].
    + destruct (IH Fixture.subdivision (add_call (Area_by_id (PStr "a1")) w))
        as [H1 H2]; [now right|].
      split; [exact H1|]. rewrite H2. simpl. rewrite length_app. simpl. lia.
    + destruct (IH Fixture.city (add_call (Area_by_id (PStr "a2")) w))
        as [H1 H2]; [now left|].
      split; [exact H1|]. rewrite H2. simpl. rewrite length_app. simpl. lia.
Qed.

(** C7 as stated fails: between two areas that are each other's parent the
    walk never ends by itself. *)
Lemma find_top_area_cycle_counterexample :
  ~ (forall (env : environment) (area : pyval) (w : world),
        walk_terminates env area w).
Proof.
  intros H.
  destruct (H Fixture.cyclic Fixture.city Fixture.empty_world) as [depth Hd].
  specialize (Hd (S depth) (Nat.le_succ_diag_r depth)).
  apply (f_equal (fun r => length (remote_calls (snd r)))) in Hd.
  destruct (cyclic_walk depth Fixture.city Fixture.empty_world) as [_ H1];
    [now left|].
  destruct (cyclic_walk (S depth) Fixture.city Fixture.empty_world) as [_ H2];
    [now left|].
  rewrite H1, H2 in Hd. lia.
Qed.

Lemma find_top_area_terminates_without_cycles_witness :
  walk_terminates Fixture.musicbrainz Fixture.city Fixture.empty_world.
Proof.
  apply (find_top_area_terminates_without_cycles Fixture.musicbrainz
           Fixture.rank Fixture.city Fixture.empty_world).
  intros a parent others Hp Hc.
  unfold parents, and_then in Hp. unfold Fixture.rank at 2.
  destruct (getitem a "id") as [id|e]; [|discriminate Hp].
  simpl in Hp.
  destruct (eq_str id "a1").
  - simpl in Hp. injection Hp as <- <-. unfold Fixture.rank. simpl. lia.
  - destruct (eq_str id "a2"); [|discriminate Hp].
    simpl in Hp. injection Hp as <- <-. discriminate Hc.
Defined.

(** ** The subcommand *)

Lemma was_stored_item_store (item : Item) (k : string) (v : pyval) :
  was_stored item (item_store (item_setitem k v item)) = true.
Proof.
  unfold was_stored. apply negb_true_iff, Nat.eqb_neq. simpl. lia.
Qed.

Lemma was_stored_same (item : Item) : was_stored item item = false.
Proof. unfold was_stored. now rewrite Nat.eqb_refl. Qed.

Lemma artistcountry_item_spec (env : environment) (item : Item) (updated : nat)
    (st : pstate) :
  exists item' st',
    artistcountry_item env item updated st
    = (Ret (item', (if was_stored item item' then 1 else 0) + updated), st')
    /\ item_run env st item item' st'.
Proof.
  unfold artistcountry_item, item_run, has_country.
  destruct (truthy (flex_get item "artist_country")); simpl.
  - exists item, st. rewrite was_stored_same. auto.
  - destruct (get_artist_country_returns env (mb_artistid item) st)
      as (country & st1 & E).
    unfold bind. rewrite E. destruct st1 as [self1 w1].
    destruct (truthy country) eqn:Ht.
    + exists (item_store (item_setitem "artist_country" country item)),
        (self1, add_log DEBUG
                  (Set_artist_country country (artist item) (title item)) w1).
      split.
      * rewrite was_stored_item_store. reflexivity.
      * exists country, (self1, w1). rewrite Ht. auto.
    + exists item, (self1, w1). split.
      * rewrite was_stored_same. reflexivity.
      * exists country, (self1, w1). rewrite Ht. auto.
Qed.

Lemma artistcountry_loop_spec (env : environment) (items : list Item) :
  forall (updated : nat) (st : pstate),
  exists items' st',
    artistcountry_loop env items updated st
    = (Ret (items', stored_count items items' + updated), st')
    /\ items_run env st items items' st'.
Proof.
  induction items as [|item items IH]; intros updated st.
  - exists [], st. split; [reflexivity | constructor].
  - destruct (artistcountry_item_spec env item updated st) as (item' & st1 & E1 & H1).
    destruct (IH ((if was_stored item item' then 1 else 0) + updated) st1)
      as (items' & st2 & E2 & H2).
    exists (item' :: items'), st2. split; [|exact (items_run_cons _ _ _ _ _ _ _ _ H1 H2)].
    simpl. unfold bind. rewrite E1. simpl. rewrite E2. unfold ret. simpl.
    replace (stored_count items items'
             + ((if was_stored item item' then 1 else 0) + updated))
      with ((if was_stored item item' then 1 else 0)
            + stored_count items items' + updated) by lia.
    reflexivity.
Qed.

(** C6, as the code has it. The subcommand always returns. After its
    first log line it takes the items one after the other, each in the
    state the one before left: an item that carries a non-empty
    [artist_country] is left alone; for each other item the country is
    resolved by [get_artist_country] and, when that is non-empty, is
    assigned (as the host normalizes it), the item is stored and the
    update is logged; an item whose country resolves to the empty string
    stays as it was and is not stored. Its last log line reports the
    number of items it stored. *)
Theorem subcommand_fills_in_missing_countries (env : environment)
    (items : list Item) (st : pstate) :
  exists items' st1,
    items_run env
      (fst st, add_log INFO (Processing_items (length items)) (snd st))
      items items' st1
    /\ artistcountry_func env items st
       = (Ret items',
          (fst st1,
           add_log INFO (Updated_items (stored_count items items')) (snd st1))).
Proof.
  destruct st as [self w].
  destruct (artistcountry_loop_spec env items 0
              (self, add_log INFO (Processing_items (length items)) w))
    as (items' & [self' w'] & E & H).
  exists items', (self', w'). split; [exact H|].
  unfold artistcountry_func, bind, self_log, modify, ret. simpl.
  rewrite E. simpl. now rewrite Nat.add_0_r.
Qed.

(** C6 as stated fails: an item without [artist_country] whose identifier
    resolves to no country is neither changed nor stored. *)
Lemma subcommand_counterexample :
  ~ (forall (env : environment) (items items' : list Item) (st st' : pstate),
        artistcountry_func env items st = (Ret items', st') ->
        Forall2 (fun item item' =>
                   (is_Some (_values_flex item !! "artist_country") -> item' = item)
                   /\ (_values_flex item !! "artist_country" = None ->
                       is_Some (stored_flex item' !! "artist_country")))
                items items').
Proof.
  intros H.
  specialize (H Fixture.musicbrainz [Fixture.item "" ∅] [Fixture.item "" ∅]
                (new_CountryPlugin, Fixture.empty_world) _ eq_refl).
  inversion H as [|? ? ? ? [_ Hstored] _]; subst.
  destruct (Hstored (lookup_empty _)) as [v Hv].
  simpl in Hv. rewrite lookup_empty in Hv. discriminate Hv.
Qed.

(** * Further properties of the code *)

(** ** The effect of a lookup that goes to the service *)

Lemma _find_top_area_calls (env : environment) (d : nat) (area : pyval) :
  exists r l,
    (forall w, _find_top_area env d area w = (r, add_calls l w))
    /\ forallb is_area_call l = true /\ length l <= d.
Proof.
  revert area. induction d as [|d IH]; intros area.
  - exists (Raise (Exn RecursionError "maximum recursion depth exceeded")), [].
    split; [|split; [reflexivity | simpl; lia]].
    intros [f we lg rc ck]. unfold add_calls. simpl.
    unfold raise. now rewrite app_nil_r.
  - assert (forall r c, is_area_call c = true -> exists r' l,
               (forall w, (r, add_call c w) = (r' : outcome pyval, add_calls l w))
               /\ forallb is_area_call l = true /\ length l <= S d) as Hone.
    { intros r c Hc. exists r, [c]. split; [reflexivity|].
      simpl. rewrite Hc. split; [reflexivity | lia]. }
    assert (forall r, exists r' l,
               (forall w : world, (r, w) = (r' : outcome pyval, add_calls l w))
               /\ forallb is_area_call l = true /\ length l <= S d) as Hzero.
    { intros r. exists r, []. split; [|split; [reflexivity | simpl; lia]].
      intros [f we lg rc ck]. unfold add_calls. simpl. now rewrite app_nil_r. }
    setoid_rewrite _find_top_area_S.
    destruct (getitem area "id") as [id|e]; [|apply Hzero]. cbv zeta.
    destruct (parents env area) as [[|area' others]|e];
      try (apply Hone; reflexivity).
    destruct (_has_country_iso_code area') as [[|]|e];
      try (apply Hone; reflexivity).
    destruct (IH area') as (r & calls & H & Hall & Hlen).
    exists r, (Area_by_id id :: calls). split; [|split].
    + intros w. now rewrite H, add_calls_add_call.
    + exact Hall.
    + simpl. lia.
Qed.

Lemma _country_from_area_calls (env : environment) (area : pyval) :
  exists r l,
    (forall w, _country_from_area env area w = (r, add_calls l w))
    /\ forallb is_area_call l = true /\ length l <= recursion_limit env.
Proof.
  destruct (_find_top_area_calls env (recursion_limit env) area)
    as (r & l & H & Hall & Hlen).
  unfold _country_from_area, bind, lift.
  destruct r as [countries|e].
  - exists (getitem0 countries), l. split; [|auto]. intros w. now rewrite H.
  - exists (Raise e), l. split; [|auto]. intros w. now rewrite H.
Qed.

Arguments _country_from_area : simpl never.

Ltac step_walk :=
  match goal with
  | |- context [_country_from_area ?env ?a ?w] =>
      let r := fresh "r" in
      let l := fresh "l" in
      let Hw := fresh "Hw" in
      let Hall := fresh "Hall" in
      let Hlen := fresh "Hlen" in
      destruct (_country_from_area_calls env a) as (r & l & Hw & Hall & Hlen);
      rewrite Hw; simpl
  end.

Ltac step_match :=
  match goal with
  | |- context [match ?x with Ret _ => _ | Raise _ => _ end] =>
      destruct x eqn:?; simpl
  | |- context [if ?x then _ else _] => destruct x eqn:?; simpl
  | |- context [match write_error ?w with _ => _ end] =>
      destruct (write_error w) eqn:?; simpl
  end.

Ltac solve_lookup_leaf :=
  intros [= <- <-];
  try match goal with
      | H : lower_or_empty _ = Ret _ |- _ =>
          apply lower_or_empty_inv in H as (? & -> & ?)
      end;
  unfold lookup_effect; simpl;
  eexists _, _, _, _;
  split; [reflexivity|];
  split; [first [assumption | intros ? []]|];
  split; [reflexivity|];
  split; [rewrite <- ?app_assoc; reflexivity|];
  split; [first [assumption | reflexivity]|];
  split; [first [assumption | simpl; lia]|];
  split; [reflexivity|];
  split; [reflexivity|];
  split; [first [symmetry; apply app_nil_r
                | rewrite <- ?app_assoc; reflexivity]|];
  match goal with
  | H : write_error _ = _ |- _ => rewrite H; reflexivity
  end.

Lemma get_artist_country_lookup (env : environment) (id : string)
    (st : pstate) (self1 : CountryPlugin) (w1 : world) (c : cache) :
  malformed id = false -> load_cache st = (Ret c, (self1, w1)) -> c !! id = None ->
  forall r st',
    get_artist_country env id st = (r, st') -> lookup_effect env id c w1 r st'.
Proof.
  intros Hm Hl Hc r st'. unfold get_artist_country. rewrite Hm. unfold bind at 1.
  rewrite Hl, Hc. unfold save_cache, Exception. run.
  repeat first [step_walk | step_match].
  all: try solve_lookup_leaf.
  all: exfalso;
    match goal with
    | H1 : py_get ?a _ _ = Ret _, H2 : py_get ?a _ _ = Raise _ |- _ =>
        destruct a; discriminate
    end.
Qed.

(** The three ways a call of [get_artist_country] can go. *)
Lemma get_artist_country_cases (env : environment) (id : string) (st : pstate) :
  exists c self1 w1,
    load_cache st = (Ret c, (self1, w1))
    /\ ((malformed id = true
         /\ get_artist_country env id st = (Ret (PStr ""), st))
        \/ (malformed id = false
            /\ exists record,
                 c !! id = Some record
                 /\ get_artist_country env id st
                    = (Ret (dict_get record "country" (PStr "")), (self1, w1)))
        \/ (malformed id = false /\ c !! id = None
            /\ lookup_effect env id c w1
                 (fst (get_artist_country env id st))
                 (snd (get_artist_country env id st)))).
Proof.
  destruct (load_cache st) as [r [self1 w1]] eqn:Hl.
  destruct (load_cache_inv _ _ _ Hl) as (c & -> & _).
  exists c, self1, w1. split; [reflexivity|].
  destruct (malformed id) eqn:Hm.
  - left. split; [reflexivity|]. unfold get_artist_country. now rewrite Hm.
  - right. destruct (c !! id) as [record|] eqn:Hc.
    + left. split; [reflexivity|]. exists record. split; [reflexivity|].
      unfold get_artist_country, bind. now rewrite Hm, Hl, Hc.
    + right. split; [reflexivity|]. split; [reflexivity|].
      destruct (get_artist_country env id st) as [r st'] eqn:E.
      exact (get_artist_country_lookup env id st self1 w1 c Hm Hl Hc r st' E).
Qed.

(** After a call for a well-formed identifier the cache in memory has a
    record for it, and the call returned the country of that record. *)
Lemma lookup_leaves_record (env : environment) (id : string) (st : pstate) :
  malformed id = false ->
  exists c' record,
    _cache (fst (snd (get_artist_country env id st))) = Some c'
    /\ c' !! id = Some record
    /\ fst (get_artist_country env id st)
       = Ret (dict_get record "country" (PStr "")).
Proof.
  intros Hm.
  destruct (get_artist_country_cases env id st)
    as (c & self1 & w1 & Hl & [[Hm' _] | [(_ & record & Hc & E) | (_ & Hc & H)]]).
  - congruence.
  - rewrite E. simpl. exists c, record.
    destruct (load_cache_inv _ _ _ Hl) as (c0 & [= <-] & Hself & _).
    auto.
  - destruct H as (s & rest & calls & entries & Hr & _ & Hself & _).
    rewrite Hr, Hself. simpl. eexists _, _.
    split; [reflexivity|]. split; [apply lookup_insert_eq | reflexivity].
Qed.

(** X1. On a cache file that is absent, unreadable, not valid JSON text
    or a mapping of records, [get_artist_country] never raises, whatever
    the identifier is and whatever the service returns or raises. *)
Theorem lookup_never_raises (env : environment) (id : string) (st : pstate) :
  exists v, fst (get_artist_country env id st) = Ret v.
Proof.
  destruct (get_artist_country_returns env id st) as (v & st' & E).
  exists v. now rewrite E.
Qed.

Lemma get_artist_country_again (env : environment) (id : string)
    (st st' : pstate) (r : outcome pyval) :
  get_artist_country env id st = (r, st') ->
  get_artist_country env id st' = (r, st').
Proof.
  intros E. destruct (malformed id) eqn:Hm.
  - revert E. unfold get_artist_country. rewrite Hm. intros [= <- <-]. reflexivity.
  - destruct (lookup_leaves_record env id st Hm) as (c' & record & Hs & Hc & Hr).
    rewrite E in Hs, Hr. simpl in Hs, Hr.
    rewrite (get_artist_country_cached env id st' c' record Hm Hs Hc).
    now rewrite Hr.
Qed.

(** X2. Asking again changes nothing: a second call for the same
    identifier returns what the first returned and leaves the plugin and
    the world (file, log, remote calls, clock) as the first left them. *)
Theorem repeated_lookup_changes_nothing (env : environment) (id : string)
    (st : pstate) :
  get_artist_country env id (snd (get_artist_country env id st))
  = get_artist_country env id st.
Proof.
  destruct (get_artist_country env id st) as [r st'] eqn:E.
  exact (get_artist_country_again env id st st' r E).
Qed.

(** X3. A call makes no remote call at all, or one artist lookup followed
    only by area lookups, at most as many as the recursion limit. *)
Theorem lookup_remote_calls (env : environment) (id : string) (st : pstate) :
  exists calls,
    remote_calls (snd (snd (get_artist_country env id st)))
    = remote_calls (snd st) ++ calls
    /\ (calls = []
        \/ exists area_calls,
             calls = Artist_by_id id :: area_calls
             /\ forallb is_area_call area_calls = true
             /\ length area_calls <= recursion_limit env).
Proof.
  destruct (get_artist_country_cases env id st)
    as (c & self1 & w1 & Hl & [[_ E] | [(_ & record & _ & E) | (_ & _ & H)]]).
  - exists []. rewrite E, app_nil_r. auto.
  - exists []. rewrite E, app_nil_r. simpl.
    destruct (load_cache_inv _ _ _ Hl) as (? & _ & _ & _ & _ & Hr & _). auto.
  - destruct H as (s & rest & calls & entries & _ & _ & _ & Hcalls & Hall & Hlen & _).
    destruct (load_cache_inv _ _ _ Hl) as (? & _ & _ & _ & _ & Hr & _).
    simpl in Hr. exists (Artist_by_id id :: calls). rewrite Hcalls, Hr.
    split; [reflexivity|]. right. exists calls. auto.
Qed.

(** ** Memory and disk *)







(** X6. The keys of the cache stay well-formed identifiers: if they are
    in the cache a call loads, they are in the cache it leaves. *)
Theorem lookup_keeps_keys_well_formed (env : environment) (id : string)
    (st st1 : pstate) (c c' : cache) :
  load_cache st = (Ret c, st1) ->
  keys_well_formed c ->
  _cache (fst (snd (get_artist_country env id st))) = Some c' ->
  keys_well_formed c'.
Proof.
  intros Hl Hwf Hc'.
  destruct (get_artist_country_cases env id st)
    as (c0 & self1 & w1 & Hl' & Hcases).
  rewrite Hl in Hl'. injection Hl' as Hc0 Hst1. subst c0 st1.
  destruct Hcases as [[_ E] | [(_ & record & _ & E) | (Hm & _ & H)]].
  - rewrite E in Hc'. simpl in Hc'.
    rewrite (load_cache_loaded st c' Hc') in Hl. now injection Hl as <- _.
  - rewrite E in Hc'. simpl in Hc'.
    destruct (load_cache_inv _ _ _ Hl) as (c0 & Hc0 & Hself & _).
    injection Hc0 as <-. simpl in Hself. rewrite Hself in Hc'.
    injection Hc' as <-. exact Hwf.
  - destruct H as (s & rest & calls & entries & _ & _ & Hself & _).
    rewrite Hself in Hc'. injection Hc' as <-.
    intros k Hk. destruct (decide (id = k)) as [<- | Hne]; [exact Hm|].
    rewrite lookup_insert_ne in Hk by exact Hne. auto.
Qed.

Lemma lookup_keeps_keys_well_formed_witness :
  keys_well_formed {[Fixture.artist_id := Fixture.record_us]}.
Proof.
  apply (lookup_keeps_keys_well_formed Fixture.musicbrainz Fixture.artist_id
           (new_CountryPlugin, Fixture.empty_world)
           (Plugin (Some ∅), Fixture.empty_world) ∅
           {[Fixture.artist_id := Fixture.record_us]}).
  - reflexivity.
  - intros k [v Hk]. rewrite lookup_empty in Hk. discriminate Hk.
  - reflexivity.
Defined.

(** ** Lookups that need no walk *)

(** X7. When the artist record carries a country, or has no area, the
    artist lookup is the only remote call; the result is the country in
    lowercase, or the empty string when there is none or it is not a
    string. *)
Theorem one_remote_call_without_area_walk (env : environment) (id : string)
    (st st1 : pstate) (c : cache) (artist_item : pyval) (artist : pydict) :
  malformed id = false ->
  load_cache st = (Ret c, st1) ->
  c !! id = None ->
  get_artist_by_id env id = Ret artist_item ->
  getitem artist_item "artist" = Ret (PDict artist) ->
  truthy (dict_get artist "country" (PStr "")) = true
  \/ dict_lookup artist "area" = None ->
  fst (get_artist_country env id st)
  = Ret (match lower_or_empty (dict_get artist "country" (PStr "")) with
         | Ret v => v
         | Raise _ => PStr ""
         end)
  /\ remote_calls (snd (snd (get_artist_country env id st)))
     = remote_calls (snd st) ++ [Artist_by_id id].
Proof.
  intros Hm Hl Hc Hitem Hartist Hcase.
  destruct (load_cache_inv _ _ _ Hl) as (? & _ & _ & _ & _ & Hcalls & _).
  destruct st1 as [self1 w1]. simpl in Hcalls. rewrite <- Hcalls.
  destruct (get_artist_country env id st) as [r st'] eqn:E. revert E.
  unfold get_artist_country. rewrite Hm. unfold bind at 1.
  rewrite Hl, Hc. unfold save_cache, Exception.
  unfold try_except, bind at 1, in_world, call_get_artist_by_id.
  rewrite Hitem. unfold bind at 1, lift at 1. rewrite Hartist.
  unfold bind at 1, lift at 1, py_get.
  destruct (truthy (dict_get artist "country" (PStr ""))) eqn:Ht.
  - run; repeat step_match; intros [= <- <-]; simpl;
      (split; [reflexivity | try reflexivity]).
  - destruct Hcase as [Hcase | Harea]; [discriminate Hcase|].
    unfold py_in at 1. rewrite Harea.
    run; repeat step_match; intros [= <- <-]; simpl;
      (split; [reflexivity | try reflexivity]).
Qed.

Lemma one_remote_call_without_area_walk_witness :
  fst (get_artist_country Fixture2.with_country Fixture.artist_id
         (new_CountryPlugin, Fixture.empty_world))
  = Ret (PStr "gb")
  /\ remote_calls (snd (snd (get_artist_country Fixture2.with_country
                               Fixture.artist_id
                               (new_CountryPlugin, Fixture.empty_world))))
     = [Artist_by_id Fixture.artist_id].
Proof.
  apply (one_remote_call_without_area_walk Fixture2.with_country Fixture.artist_id
           (new_CountryPlugin, Fixture.empty_world)
           (Plugin (Some ∅), Fixture.empty_world) ∅
           (PDict [("artist", PDict [("name", PStr "X"); ("country", PStr "GB");
                                     ("area", Fixture.city)])])
           [("name", PStr "X"); ("country", PStr "GB"); ("area", Fixture.city)]).
  - reflexivity.
  - reflexivity.
  - apply lookup_empty.
  - reflexivity.
  - reflexivity.
  - left. reflexivity.
Defined.

(** ** The cache store *)

(** Loading when the file holds no mapping: the cache starts empty. *)
Lemma load_cache_tolerates_bad_file (self : CountryPlugin) (w : world) :
  _cache self = None ->
  (forall c, cache_file w <> FileJSON c) ->
  fst (load_cache (self, w)) = Ret ∅
  /\ fst (snd (load_cache (self, w))) = Plugin (Some ∅)
  /\ (cache_file w = NoFile -> snd (snd (load_cache (self, w))) = w)
  /\ (cache_file w <> NoFile ->
      exists e,
        snd (snd (load_cache (self, w)))
        = add_log WARNING (Error_loading_artist_cache e) w).
Proof.
  destruct self as [oc]. simpl. intros -> Hfile.
  unfold load_cache. run.
  destruct (cache_file w) as [|c|msg|msg] eqn:Hf; simpl; rewrite ?Hf; simpl.
  - repeat split; trivial. intros H. now contradiction H.
  - now contradiction (Hfile c).
  - repeat split; try discriminate. intros _. eexists. reflexivity.
  - repeat split; try discriminate. intros _. eexists. reflexivity.
Qed.

(** X11. A first lookup of a well-formed identifier by a new plugin on a
    writable cache file that is absent, unreadable or not valid JSON text
    replaces the file: afterwards it holds the record of that identifier
    and nothing else. *)
Theorem lookup_replaces_bad_file (env : environment) (id : string) (w : world) :
  malformed id = false ->
  write_error w = None ->
  cache_file w = NoFile
  \/ (exists msg, cache_file w = FileUnreadable msg)
  \/ (exists msg, cache_file w = FileCorrupt msg) ->
  exists record,
    cache_file (snd (snd (get_artist_country env id (new_CountryPlugin, w))))
    = FileJSON {[id := record]}.
Proof.
  intros Hm Hw Hbad.
  assert (forall c, cache_file w <> FileJSON c) as Hfile.
  { intros c Hc. destruct Hbad as [H | [[msg H] | [msg H]]]; congruence. }
  destruct (load_cache_tolerates_bad_file new_CountryPlugin w eq_refl Hfile)
    as (Hr & Hself & _).
  destruct (load_cache (new_CountryPlugin, w)) as [r [self1 w1]] eqn:Hl.
  simpl in Hr, Hself. subst r self1.
  destruct (load_cache_inv _ _ _ Hl) as (? & _ & _ & _ & Hwe & _). simpl in Hwe.
  destruct (get_artist_country env id (new_CountryPlugin, w)) as [r st'] eqn:E.
  destruct (get_artist_country_lookup env id _ _ w1 ∅ Hm Hl (lookup_empty id) r st' E)
    as (s & rest & calls & entries & _ & _ & _ & _ & _ & _ & _ & _ & _ & Hf).
  rewrite Hwe, Hw in Hf. simpl. rewrite Hf. rewrite insert_empty. eauto.
Qed.

Lemma lookup_replaces_bad_file_witness :
  exists record,
    cache_file (snd (snd (get_artist_country Fixture.musicbrainz Fixture.artist_id
                            (new_CountryPlugin, Fixture2.corrupt_world))))
    = FileJSON {[Fixture.artist_id := record]}.
Proof.
  apply (lookup_replaces_bad_file Fixture.musicbrainz Fixture.artist_id
           Fixture2.corrupt_world).
  - reflexivity.
  - reflexivity.
  - right. right. exists "Expecting value". reflexivity.
Defined.

(** ** The walk up the hierarchy *)

(** X13. The walk touches nothing but the service: it leaves the cache
    file, the log and the clock alone, adds only area lookups to the
    remote calls, at most as many as the depth it is allowed, and its
    result does not depend on the world it starts in. *)
Theorem walk_only_looks_up_areas (env : environment) (depth : nat)
    (area : pyval) (w : world) :
  exists calls,
    snd (_find_top_area env depth area w) = add_calls calls w
    /\ forallb is_area_call calls = true
    /\ length calls <= depth
    /\ forall w', fst (_find_top_area env depth area w')
                  = fst (_find_top_area env depth area w).
Proof.
  destruct (_find_top_area_calls env depth area) as (r & l & H & Hall & Hlen).
  exists l. rewrite H. repeat split; trivial.
  intros w'. now rewrite H.
Qed.

Lemma _find_top_area_more_depth (env : environment) (d : nat) :
  forall area w codes,
    fst (_find_top_area env d area w) = Ret codes ->
    forall d', d <= d' ->
      _find_top_area env d' area w = _find_top_area env d area w.
Proof.
  induction d as [|d IH]; intros area w codes Hr d' Hle; [discriminate Hr|].
  destruct d' as [|d']; [lia|].
  rewrite _find_top_area_S in Hr. rewrite !_find_top_area_S.
  destruct (getitem area "id") as [id|e]; [|reflexivity]. cbv zeta in *.
  destruct (parents env area) as [[|parent others]|e]; try reflexivity.
  destruct (_has_country_iso_code parent) as [[|]|e]; try reflexivity.
  apply (IH _ _ codes Hr). lia.
Qed.

(** X14. An answer of the walk does not depend on the recursion limit:
    when the walk returns a code list within some depth, it returns the
    same list, after the same remote calls, within every greater depth. *)
Theorem walk_answer_is_stable (env : environment) (d d' : nat) (area : pyval)
    (w : world) (codes : pyval) :
  fst (_find_top_area env d area w) = Ret codes ->
  d <= d' ->
  _find_top_area env d' area w = _find_top_area env d area w.
Proof.
  intros Hr Hle. exact (_find_top_area_more_depth env d area w codes Hr d' Hle).
Qed.

Lemma walk_answer_is_stable_witness :
  _find_top_area Fixture.musicbrainz 7 Fixture.city Fixture.empty_world
  = _find_top_area Fixture.musicbrainz 2 Fixture.city Fixture.empty_world.
Proof.
  apply (walk_answer_is_stable Fixture.musicbrainz 2 7 Fixture.city
           Fixture.empty_world (PList [PStr "US"])).
  - reflexivity.
  - lia.
Defined.

Lemma _find_top_area_returns_top (env : environment) (d : nat) :
  forall area w codes,
    fst (_find_top_area env d area w) = Ret codes ->
    exists n top,
      n <= d /\ hierarchy_top env n area top
      /\ getitem top "iso-3166-1-code-list" = Ret codes.
Proof.
  induction d as [|d IH]; intros area w codes Hr; [discriminate Hr|].
  rewrite _find_top_area_S in Hr.
  destruct (getitem area "id") as [id|e]; [|discriminate Hr]. cbv zeta in Hr.
  destruct (parents env area) as [[|parent others]|e] eqn:Hp;
    [ | |discriminate Hr].
  - exists 1, area. split; [lia|]. split; [now constructor | exact Hr].
  - destruct (_has_country_iso_code parent) as [[|]|e] eqn:Hc;
      [ | |discriminate Hr].
    + exists 1, parent. split; [lia|].
      split; [now apply (top_parent_is_country env area parent others) | exact Hr].
    + destruct (IH _ _ _ Hr) as (n & top & Hn & Htop & Hcodes).
      exists (S n), top. split; [lia|].
      split; [now apply (top_further_up env area parent others n top) | exact Hcodes].
Qed.

(** X15. The walk returns a code list exactly when the hierarchy above
    the area ends, within the allowed depth, at an area that has this
    code list: at the first parent that is a country with a code list, or
    at an area without backward relation that carries a list itself,
    whatever its type. *)
Theorem walk_returns_code_list_of_top (env : environment) (depth : nat)
    (area : pyval) (w : world) (codes : pyval) :
  fst (_find_top_area env depth area w) = Ret codes
  <-> exists n top,
        n <= depth /\ hierarchy_top env n area top
        /\ getitem top "iso-3166-1-code-list" = Ret codes.
Proof.
  split.
  - apply _find_top_area_returns_top.
  - intros (n & top & Hn & Htop & Hcodes).
    now rewrite (_find_top_area_reaches env n area top Htop depth w Hn).
Qed.

(** X16. [_country_from_area] gives the first element of the code list of
    the top of the hierarchy, and fails as reading that list or its first
    element fails: with [KeyError] when the top has no list, with
    [IndexError] when the list is empty. *)
Theorem country_is_first_code_of_top (env : environment) (area top : pyval)
    (n : nat) (w : world) :
  hierarchy_top env n area top ->
  n <= recursion_limit env ->
  fst (_country_from_area env area w)
  = and_then (getitem top "iso-3166-1-code-list") getitem0.
Proof.
  intros Htop Hn. unfold _country_from_area, bind, lift.
  pose proof (_find_top_area_reaches env n area top Htop
                (recursion_limit env) w Hn) as Hr.
  destruct (_find_top_area env (recursion_limit env) area w) as [r w'].
  simpl in Hr. subst r. unfold and_then.
  now destruct (getitem top "iso-3166-1-code-list").
Qed.

Lemma country_is_first_code_of_top_witness :
  fst (_country_from_area Fixture.musicbrainz Fixture.city Fixture.empty_world)
  = Ret (PStr "US").
Proof.
  apply (country_is_first_code_of_top Fixture.musicbrainz Fixture.city
           Fixture.country 2 Fixture.empty_world).
  - apply (top_further_up _ Fixture.city Fixture.subdivision [] 1 Fixture.country).
    + reflexivity.
    + reflexivity.
    + apply (top_parent_is_country _ Fixture.subdivision Fixture.country []);
        reflexivity.
  - simpl. lia.
Defined.

(** ** The template field, again *)

Lemma flex_get_setitem (k : string) (v : pyval) (item : Item) :
  flex_get (item_setitem k v item) k = STRING_normalize v.
Proof. unfold flex_get, item_setitem. simpl. now rewrite lookup_insert_eq. Qed.

Lemma string_of_int_not_empty (d : Decimal.int) : NilZero.string_of_int d <> "".
Proof. destruct d as [[| | | | | | | | | |]|d]; discriminate. Qed.

(** What the host stores for a non-empty value is non-empty. *)
Lemma truthy_STRING_normalize (v : pyval) :
  truthy v = true -> truthy (STRING_normalize v) = true.
Proof.
  destruct v as [|[|]|z|s|[|x l]|[|kv d]]; simpl; try discriminate; trivial.
  intros _. apply negb_true_iff, String.eqb_neq, string_of_int_not_empty.
Qed.

Lemma _tmpl_country_resolves (env : environment) (item : Item)
    (g : option CountryPlugin) (w : world) (r : outcome pyval)
    (self' : CountryPlugin) (w' : world) :
  has_country item = false ->
  get_artist_country env (mb_artistid item) (default new_CountryPlugin g, w)
  = (r, (self', w')) ->
  exists v,
    r = Ret v
    /\ _tmpl_country env item (g, w)
       = (Ret (v, if truthy v then item_setitem "artist_country" v item else item),
          (Some self', w')).
Proof.
  unfold has_country. intros Hno E.
  destruct (get_artist_country_returns env (mb_artistid item)
              (default new_CountryPlugin g, w)) as (v & st1 & E').
  rewrite E in E'. injection E' as -> <-. exists v. split; [reflexivity|].
  unfold _tmpl_country. rewrite Hno.
  unfold bind, get_plugin_instance, on_instance.
  destruct g as [p|]; simpl in *; rewrite E; now destruct (truthy v).
Qed.

(** X17. Evaluating the template field again changes nothing: when an
    evaluation returned a string, a second one, on the item and the state
    the first left, returns the same string and leaves item, plugin
    instance and world as they are; in particular it makes no remote
    call. *)
Theorem template_field_twice (env : environment) (item item' : Item)
    (st st' : mstate) (s : string) :
  _tmpl_country env item st = (Ret (PStr s, item'), st') ->
  _tmpl_country env item' st' = (Ret (PStr s, item'), st').
Proof.
  intros H. destruct (has_country item) eqn:Hc.
  - pose proof H as H0. unfold _tmpl_country in H0. unfold has_country in Hc.
    rewrite Hc in H0.
    destruct (_values_flex item !! "artist_country"); [|discriminate H0].
    injection H0 as _ <- <-. exact H.
  - destruct st as [g w].
    destruct (get_artist_country env (mb_artistid item)
                (default new_CountryPlugin g, w)) as [r [self' w']] eqn:E.
    destruct (_tmpl_country_resolves env item g w r self' w' Hc E) as (v0 & -> & H0).
    rewrite H0 in H. injection H as -> <- <-.
    destruct (truthy (PStr s)) eqn:Ht.
    + unfold _tmpl_country. rewrite flex_get_setitem.
      change (STRING_normalize (PStr s)) with (PStr s). rewrite Ht.
      unfold item_setitem at 1. simpl. now rewrite lookup_insert_eq.
    + apply get_artist_country_again in E.
      destruct (_tmpl_country_resolves env item (Some self') w' _ self' w' Hc E)
        as (v1 & [= <-] & H1).
      now rewrite H1, Ht.
Qed.

Lemma template_field_twice_witness :
  _tmpl_country Fixture.musicbrainz
    (item_setitem "artist_country" (PStr "us") (Fixture.item Fixture.artist_id ∅))
    (snd (_tmpl_country Fixture.musicbrainz (Fixture.item Fixture.artist_id ∅)
            (None, Fixture.empty_world)))
  = (Ret (PStr "us",
          item_setitem "artist_country" (PStr "us") (Fixture.item Fixture.artist_id ∅)),
     snd (_tmpl_country Fixture.musicbrainz (Fixture.item Fixture.artist_id ∅)
            (None, Fixture.empty_world))).
Proof.
  apply (template_field_twice Fixture.musicbrainz (Fixture.item Fixture.artist_id ∅)
           _ (None, Fixture.empty_world)).
  reflexivity.
Defined.

(** X18. Items of one artist share the lookup: after the template field
    was evaluated for an item without country, evaluating it for another
    such item of the same artist returns the same value and leaves the
    plugin instance and the world as they are, so no remote call is
    made. *)
Theorem template_field_shares_cache (env : environment) (item1 item1' item2 : Item)
    (st st' : mstate) (v : pyval) :
  has_country item1 = false ->
  has_country item2 = false ->
  mb_artistid item2 = mb_artistid item1 ->
  _tmpl_country env item1 st = (Ret (v, item1'), st') ->
  exists item2', _tmpl_country env item2 st' = (Ret (v, item2'), st').
Proof.
  intros Hc1 Hc2 Hid H. destruct st as [g w].
  destruct (get_artist_country env (mb_artistid item1)
              (default new_CountryPlugin g, w)) as [r [self' w']] eqn:E.
  destruct (_tmpl_country_resolves env item1 g w r self' w' Hc1 E) as (v0 & -> & H0).
  rewrite H0 in H. injection H as <- _ <-.
  apply get_artist_country_again in E. rewrite <- Hid in E.
  destruct (_tmpl_country_resolves env item2 (Some self') w' _ self' w' Hc2 E)
    as (v1 & [= <-] & H1).
  eexists. exact H1.
Qed.

Lemma template_field_shares_cache_witness :
  exists item2',
    _tmpl_country Fixture.musicbrainz
      (MkItem Fixture.artist_id "X" "Other song" ∅ ∅ 0)
      (snd (_tmpl_country Fixture.musicbrainz (Fixture.item Fixture.artist_id ∅)
              (None, Fixture.empty_world)))
    = (Ret (PStr "us", item2'),
       snd (_tmpl_country Fixture.musicbrainz (Fixture.item Fixture.artist_id ∅)
              (None, Fixture.empty_world))).
Proof.
  apply (template_field_shares_cache Fixture.musicbrainz
           (Fixture.item Fixture.artist_id ∅)
           (item_setitem "artist_country" (PStr "us")
              (Fixture.item Fixture.artist_id ∅))
           (MkItem Fixture.artist_id "X" "Other song" ∅ ∅ 0)
           (None, Fixture.empty_world)).
  - reflexivity.
  - reflexivity.
  - reflexivity.
  - reflexivity.
Defined.

(** ** The subcommand, again *)

Lemma cache_grows_refl (self : CountryPlugin) : cache_grows self self.
Proof. intros c Hc. eauto. Qed.

Lemma cache_grows_trans (a b c : CountryPlugin) :
  cache_grows a b -> cache_grows b c -> cache_grows a c.
Proof.
  intros Hab Hbc ca Ha. destruct (Hab ca Ha) as (cb & Hb & Hab').
  destruct (Hbc cb Hb) as (cc & Hc & Hbc'). eauto.
Qed.

Lemma settled_grows (self self' : CountryPlugin) (item : Item) :
  cache_grows self self' -> settled self item -> settled self' item.
Proof.
  intros Hg [H | [H | (c & record & Hc & Hr & Ht)]]; [now left | now right; left|].
  right. right. destruct (Hg c Hc) as (c' & Hc' & Hsub). eauto 6.
Qed.

Lemma get_artist_country_grows (env : environment) (id : string) (st : pstate) :
  cache_grows (fst st) (fst (snd (get_artist_country env id st))).
Proof.
  destruct (get_artist_country_cases env id st)
    as (c & self1 & w1 & Hl & [[_ E] | [(_ & record & _ & E) | (_ & Hc & H)]]).
  - rewrite E. apply cache_grows_refl.
  - rewrite E. simpl. intros c0 Hc0.
    rewrite (load_cache_loaded st c0 Hc0) in Hl.
    injection Hl as Hc0' Hst. subst c0 st. simpl in Hc0. eauto.
  - destruct H as (s & rest & calls & entries & _ & _ & Hself & _).
    rewrite Hself. intros c0 Hc0.
    rewrite (load_cache_loaded st c0 Hc0) in Hl.
    injection Hl as Hc0' Hst. subst c0.
    eexists. split; [reflexivity|]. intros k record Hk.
    rewrite lookup_insert_ne; [exact Hk|]. congruence.
Qed.

Lemma settled_item_skipped (env : environment) (item : Item) (updated : nat)
    (st : pstate) :
  settled (fst st) item ->
  artistcountry_item env item updated st = (Ret (item, updated), st).
Proof.
  unfold artistcountry_item, has_country.
  intros [H | [H | (c & record & Hc & Hr & Ht)]].
  - unfold has_country in H. now rewrite H.
  - destruct (truthy (flex_get item "artist_country")); [reflexivity|]. simpl.
    unfold bind, get_artist_country. now rewrite H.
  - destruct (truthy (flex_get item "artist_country")); [reflexivity|]. simpl.
    destruct (malformed (mb_artistid item)) eqn:Hm.
    + unfold bind, get_artist_country. now rewrite Hm.
    + unfold bind.
      rewrite (get_artist_country_cached env _ st c record Hm Hc Hr).
      now rewrite Ht.
Qed.

Lemma settled_items_skipped (env : environment) (items : list Item) :
  forall (updated : nat) (st : pstate),
    Forall (settled (fst st)) items ->
    artistcountry_loop env items updated st = (Ret (items, updated), st).
Proof.
  induction items as [|item items IH]; intros updated st H; [reflexivity|].
  inversion H as [|? ? Hitem Hitems]; subst. simpl. unfold bind.
  rewrite (settled_item_skipped env item updated st Hitem). simpl.
  now rewrite (IH updated st Hitems).
Qed.

Lemma artistcountry_item_settles (env : environment) (item item' : Item)
    (updated updated' : nat) (st st' : pstate) :
  artistcountry_item env item updated st = (Ret (item', updated'), st') ->
  settled (fst st') item' /\ cache_grows (fst st) (fst st').
Proof.
  unfold artistcountry_item.
  destruct (truthy (flex_get item "artist_country")) eqn:Hc; simpl.
  - intros [= <- <- <-]. split; [now left | apply cache_grows_refl].
  - unfold bind.
    pose proof (get_artist_country_grows env (mb_artistid item) st) as Hg.
    destruct (get_artist_country env (mb_artistid item) st) as [r [self1 w1]] eqn:E.
    simpl in Hg.
    destruct (get_artist_country_returns env (mb_artistid item) st) as (v & st1 & E').
    rewrite E in E'. injection E' as -> _.
    destruct (truthy v) eqn:Ht.
    + unfold self_log, modify, ret. intros [= <- <- <-]. simpl.
      split; [|exact Hg]. left. unfold has_country.
      unfold flex_get, item_store, item_setitem. simpl.
      rewrite lookup_insert_eq. simpl. now apply truthy_STRING_normalize.
    + unfold ret. intros [= <- <- <-]. simpl. split; [|exact Hg].
      destruct (malformed (mb_artistid item)) eqn:Hm; [now right; left|].
      right. right.
      destruct (lookup_leaves_record env (mb_artistid item) st Hm)
        as (c' & record & Hs & Hr & Hv).
      rewrite E in Hs, Hv. simpl in Hs, Hv. injection Hv as ->.
      eauto 6.
Qed.

Lemma artistcountry_loop_settles (env : environment) (items : list Item) :
  forall (items' : list Item) (updated updated' : nat) (st st' : pstate),
    artistcountry_loop env items updated st = (Ret (items', updated'), st') ->
    Forall (settled (fst st')) items' /\ cache_grows (fst st) (fst st').
Proof.
  induction items as [|item items IH]; intros items' updated updated' st st'.
  - intros [= <- <- <-]. split; [constructor | apply cache_grows_refl].
  - simpl. unfold bind.
    destruct (artistcountry_item_spec env item updated st) as (item1 & st1 & E1 & _).
    rewrite E1. simpl.
    destruct (artistcountry_loop_spec env items
                ((if was_stored item item1 then 1 else 0) + updated) st1)
      as (items1 & st2 & E2 & _).
    rewrite E2. unfold ret. simpl. intros [= <- <- <-].
    destruct (artistcountry_item_settles _ _ _ _ _ _ _ E1) as [Hs1 Hg1].
    destruct (IH _ _ _ _ _ E2) as [Hs2 Hg2].
    split; [|exact (cache_grows_trans _ _ _ Hg1 Hg2)].
    constructor; [exact (settled_grows _ _ _ Hg2 Hs1) | exact Hs2].
Qed.

(** X19. Running the subcommand again does nothing: on the items and the
    state a first run left, a second run leaves every item as it is,
    stores nothing, makes no remote call and does not touch the cache or
    its file; it only logs its two lines, with a count of zero. *)
Theorem subcommand_twice (env : environment) (items items' : list Item)
    (st st' : pstate) :
  artistcountry_func env items st = (Ret items', st') ->
  artistcountry_func env items' st'
  = (Ret items',
     (fst st',
      add_log INFO (Updated_items 0)
        (add_log INFO (Processing_items (length items')) (snd st')))).
Proof.
  destruct st as [self w]. unfold artistcountry_func at 1.
  unfold bind at 1, self_log at 1, modify. simpl. unfold bind at 1.
  destruct (artistcountry_loop_spec env items 0
              (self, add_log INFO (Processing_items (length items)) w))
    as (items1 & [self1 w1] & E & _).
  rewrite E. unfold bind, self_log, modify, ret. simpl. intros [= <- <-].
  destruct (artistcountry_loop_settles _ _ _ _ _ _ _ E) as [Hs _]. simpl in Hs.
  unfold artistcountry_func, bind, self_log, modify, ret. simpl.
  rewrite (settled_items_skipped env items1 0
             (self1, add_log INFO (Processing_items (length items1))
                       (add_log INFO (Updated_items (stored_count items items1 + 0)) w1))
             Hs).
  reflexivity.
Qed.

Lemma subcommand_twice_witness :
  let run := artistcountry_func Fixture.musicbrainz
               [Fixture.item Fixture.artist_id ∅; Fixture.item "" ∅]
               (new_CountryPlugin, Fixture.empty_world) in
  artistcountry_func Fixture.musicbrainz
    [item_store (item_setitem "artist_country" (PStr "us")
                   (Fixture.item Fixture.artist_id ∅));
     Fixture.item "" ∅]
    (snd run)
  = (Ret [item_store (item_setitem "artist_country" (PStr "us")
                        (Fixture.item Fixture.artist_id ∅));
          Fixture.item "" ∅],
     (fst (snd run),
      add_log INFO (Updated_items 0)
        (add_log INFO (Processing_items 2) (snd (snd run))))).
Proof.
  intros run.
  apply (subcommand_twice Fixture.musicbrainz
           [Fixture.item Fixture.artist_id ∅; Fixture.item "" ∅]
           [item_store (item_setitem "artist_country" (PStr "us")
                          (Fixture.item Fixture.artist_id ∅));
            Fixture.item "" ∅]
           (new_CountryPlugin, Fixture.empty_world)).
  reflexivity.
Defined.

(** X20. On items that all have a country the subcommand is idle: it
    returns the items as they are, does not load the cache, makes no
    remote call and stores nothing; it only logs its two lines, with a
    count of zero. *)
Theorem subcommand_skips_items_with_country (env : environment)
    (items : list Item) (st : pstate) :
  Forall (fun item => has_country item = true) items ->
  artistcountry_func env items st
  = (Ret items,
     (fst st,
      add_log INFO (Updated_items 0)
        (add_log INFO (Processing_items (length items)) (snd st)))).
Proof.
  intros H. destruct st as [self w].
  unfold artistcountry_func, bind, self_log, modify, ret. simpl.
  rewrite (settled_items_skipped env items 0
             (self, add_log INFO (Processing_items (length items)) w)).
  - reflexivity.
  - simpl. eapply Forall_impl; [exact H|]. intros item Hi. now left.
Qed.

Lemma subcommand_skips_items_with_country_witness :
  artistcountry_func Fixture.musicbrainz
    [Fixture.item Fixture.artist_id {["artist_country" := PStr "us"]}]
    (new_CountryPlugin, Fixture.empty_world)
  = (Ret [Fixture.item Fixture.artist_id {["artist_country" := PStr "us"]}],
     (new_CountryPlugin,
      add_log INFO (Updated_items 0)
        (add_log INFO (Processing_items 1) Fixture.empty_world))).
Proof.
  apply (subcommand_skips_items_with_country Fixture.musicbrainz
           [Fixture.item Fixture.artist_id {["artist_country" := PStr "us"]}]
           (new_CountryPlugin, Fixture.empty_world)).
  repeat constructor.
Defined.

Lemma artist_lookups_app (a b : list remote_call) :
  artist_lookups (a ++ b) = artist_lookups a ++ artist_lookups b.
Proof.
  induction a as [|[id|id] a IH]; simpl; [reflexivity | now rewrite IH | exact IH].
Qed.

Lemma artist_lookups_area_calls (l : list remote_call) :
  forallb is_area_call l = true -> artist_lookups l = [].
Proof.
  induction l as [|[id|id] l IH]; simpl; [reflexivity | discriminate | exact IH].
Qed.

Lemma lookups_cached_grows (calls : list remote_call) (self self' : CountryPlugin) :
  cache_grows self self' -> lookups_cached calls self -> lookups_cached calls self'.
Proof.
  intros Hg H id Hid. destruct (H id Hid) as (c & Hc & [record Hr]).
  destruct (Hg c Hc) as (c' & Hc' & Hsub). exists c'. split; [exact Hc'|].
  exists record. auto.
Qed.

Lemma get_artist_country_looks_up_once (env : environment) (id : string)
    (st : pstate) (calls0 : list remote_call) :
  NoDup (artist_lookups calls0) ->
  lookups_cached calls0 (fst st) ->
  exists calls,
    remote_calls (snd (snd (get_artist_country env id st)))
    = remote_calls (snd st) ++ calls
    /\ NoDup (artist_lookups (calls0 ++ calls))
    /\ lookups_cached (calls0 ++ calls) (fst (snd (get_artist_country env id st)))
    /\ (forall id', id' ∈ artist_lookups calls -> id' = id).
Proof.
  intros Hnd Hlc.
  pose proof (get_artist_country_grows env id st) as Hg.
  destruct (get_artist_country_cases env id st)
    as (c & self1 & w1 & Hl & [[_ E] | [(_ & record & _ & E) | (_ & Hc & H)]]).
  - exists []. rewrite E, !app_nil_r. repeat split; trivial.
    intros id' Hin. now apply elem_of_nil in Hin.
  - exists []. rewrite E in *. rewrite !app_nil_r. simpl in *.
    destruct (load_cache_inv _ _ _ Hl) as (? & _ & _ & _ & _ & Hr & _).
    split; [exact Hr|]. split; [exact Hnd|].
    split; [exact (lookups_cached_grows _ _ _ Hg Hlc)|].
    intros id' Hin. now apply elem_of_nil in Hin.
  - destruct H as (s & rest & calls & entries & _ & _ & Hself & Hcalls & Hall & _).
    destruct (load_cache_inv _ _ _ Hl) as (? & _ & _ & _ & _ & Hr & _).
    simpl in Hr. exists (Artist_by_id id :: calls).
    rewrite Hcalls, Hr. split; [reflexivity|].
    rewrite artist_lookups_app. simpl.
    rewrite (artist_lookups_area_calls calls Hall).
    split; [|split].
    + apply NoDup_app. split; [exact Hnd|]. split; [|apply NoDup_singleton].
      intros id' Hin Hin'. apply list_elem_of_singleton in Hin'. subst id'.
      destruct (Hlc id Hin) as (c0 & Hc0 & [record Hrec]).
      rewrite (load_cache_loaded st c0 Hc0) in Hl.
      injection Hl as Hcc _. subst c0. congruence.
    + intros id' Hin. rewrite artist_lookups_app in Hin. simpl in Hin.
      rewrite (artist_lookups_area_calls calls Hall) in Hin.
      apply elem_of_app in Hin as [Hin | Hin].
      * apply (lookups_cached_grows calls0 _ _ Hg Hlc id').
        exact Hin.
      * apply list_elem_of_singleton in Hin. subst id'. rewrite Hself.
        eexists. split; [reflexivity|]. rewrite lookup_insert_eq. eauto.
    + intros id' Hin. now apply list_elem_of_singleton in Hin.
Qed.

Lemma artistcountry_item_looks_up_once (env : environment) (item : Item)
    (updated : nat) (st : pstate) (calls0 : list remote_call) :
  NoDup (artist_lookups calls0) ->
  lookups_cached calls0 (fst st) ->
  exists calls,
    remote_calls (snd (snd (artistcountry_item env item updated st)))
    = remote_calls (snd st) ++ calls
    /\ NoDup (artist_lookups (calls0 ++ calls))
    /\ lookups_cached (calls0 ++ calls)
         (fst (snd (artistcountry_item env item updated st)))
    /\ (forall id', id' ∈ artist_lookups calls ->
                    id' = mb_artistid item /\ has_country item = false).
Proof.
  intros Hnd Hlc. unfold artistcountry_item, has_country.
  destruct (truthy (flex_get item "artist_country")); simpl.
  - exists []. rewrite !app_nil_r.
    split; [reflexivity|]. split; [exact Hnd|]. split; [exact Hlc|].
    intros id' Hin. now apply elem_of_nil in Hin.
  - destruct (get_artist_country_looks_up_once env (mb_artistid item) st calls0
                Hnd Hlc) as (calls & Hr & Hnd' & Hlc' & Hid).
    exists calls. unfold bind.
    destruct (get_artist_country_returns env (mb_artistid item) st)
      as (v & [self1 w1] & E).
    rewrite E in *. simpl in *.
    destruct (truthy v); simpl; repeat split; auto.
Qed.

Lemma artistcountry_loop_looks_up_once (env : environment) (items : list Item) :
  forall (updated : nat) (st : pstate) (calls0 : list remote_call),
    NoDup (artist_lookups calls0) ->
    lookups_cached calls0 (fst st) ->
    exists calls,
      remote_calls (snd (snd (artistcountry_loop env items updated st)))
      = remote_calls (snd st) ++ calls
      /\ NoDup (artist_lookups (calls0 ++ calls))
      /\ lookups_cached (calls0 ++ calls)
           (fst (snd (artistcountry_loop env items updated st)))
      /\ (forall id', id' ∈ artist_lookups calls ->
                      exists item, item ∈ items /\ mb_artistid item = id'
                                   /\ has_country item = false).
Proof.
  induction items as [|item items IH]; intros updated st calls0 Hnd Hlc.
  - exists []. simpl. rewrite !app_nil_r. repeat split; trivial.
    intros id' Hin. now apply elem_of_nil in Hin.
  - destruct (artistcountry_item_looks_up_once env item updated st calls0 Hnd Hlc)
      as (calls1 & Hr1 & Hnd1 & Hlc1 & Hid1).
    destruct (artistcountry_item_spec env item updated st) as (item1 & st1 & E1 & _).
    rewrite E1 in Hr1, Hlc1. simpl in Hr1, Hlc1.
    destruct (IH ((if was_stored item item1 then 1 else 0) + updated) st1
                (calls0 ++ calls1) Hnd1 Hlc1) as (calls2 & Hr2 & Hnd2 & Hlc2 & Hid2).
    destruct (artistcountry_loop_spec env items
                ((if was_stored item item1 then 1 else 0) + updated) st1)
      as (items1 & st2 & E2 & _).
    rewrite E2 in Hr2, Hlc2. simpl in Hr2, Hlc2.
    exists (calls1 ++ calls2). simpl. unfold bind. rewrite E1. simpl. rewrite E2.
    unfold ret. simpl. rewrite Hr2, Hr1. rewrite !app_assoc in *.
    repeat split; trivial.
    intros id' Hin. rewrite artist_lookups_app in Hin.
    apply elem_of_app in Hin as [Hin | Hin].
    + destruct (Hid1 id' Hin) as [Heq Hno]. exists item.
      split; [apply list_elem_of_here | auto].
    + destruct (Hid2 id' Hin) as (item2 & Hin2 & Hid & Hno). exists item2.
      split; [now apply list_elem_of_further | auto].
Qed.

(** X21. In one run the subcommand looks up each artist at most once,
    however many items the artist has, and only artists of items that
    have no country yet: the artist lookups among the remote calls of the
    run are pairwise distinct identifiers of such items. *)
Theorem subcommand_looks_up_each_artist_once (env : environment)
    (items : list Item) (st : pstate) :
  exists calls,
    remote_calls (snd (snd (artistcountry_func env items st)))
    = remote_calls (snd st) ++ calls
    /\ NoDup (artist_lookups calls)
    /\ (forall id, id ∈ artist_lookups calls ->
                   exists item, item ∈ items /\ mb_artistid item = id
                                /\ has_country item = false).
Proof.
  destruct st as [self w].
  destruct (artistcountry_loop_looks_up_once env items 0
              (self, add_log INFO (Processing_items (length items)) w) [])
    as (calls & Hr & Hnd & _ & Hid).
  - constructor.
  - intros id Hin. simpl in Hin. now apply elem_of_nil in Hin.
  - exists calls. split; [|split; [exact Hnd | exact Hid]].
    destruct (artistcountry_loop_spec env items 0
                (self, add_log INFO (Processing_items (length items)) w))
      as (items1 & [self1 w1] & E & _).
    rewrite E in Hr. simpl in Hr.
    unfold artistcountry_func, bind, self_log, modify, ret. simpl.
    rewrite E. simpl. exact Hr.
Qed.
